(** * Bounded conversation context manager

    A shallow embedding of the conversation manager of
    [src/tools/tool-selection.ts] (token estimator, in-memory thread store,
    context assembler, compaction and the turn operations), and the
    properties of it that the specification states. *)

From Stdlib Require Import ZArith NArith Lia.
From stdpp Require Import gmap strings list.

Local Open Scope Z_scope.

(** ** JavaScript strings

    A JavaScript string is a sequence of UTF-16 code units.  We keep the
    code units as numbers, so that the white space class of the regular
    expression [\s] and of [String.prototype.trim] is the one of the
    language, not of ASCII only. *)

Abbreviation jsstring := (list N).

(** A literal of the source text (ASCII). *)
Definition lit (s : string) : jsstring :=
  Ascii.N_of_ascii <$> String.list_ascii_of_string s.

(** The line feed, written [\n] in the source. *)
Definition nl : jsstring := [10%N].

(** [WhiteSpace] and [LineTerminator] of ECMAScript: the characters matched
    by [\s] and removed by [trim]. *)
Definition is_ws (c : N) : bool :=
  ((9 <=? c) && (c <=? 13) ||
   (c =? 32) || (c =? 160) || (c =? 5760) ||
   (8192 <=? c) && (c <=? 8202) ||
   (c =? 8232) || (c =? 8233) || (c =? 8239) || (c =? 8287) ||
   (c =? 12288) || (c =? 65279))%N.

Fixpoint trimStart (s : jsstring) : jsstring :=
  match s with
  | [] => []
  | c :: s' => if is_ws c then trimStart s' else s
  end.

Fixpoint trimEnd (s : jsstring) : jsstring :=
  match s with
  | [] => []
  | c :: s' =>
      match trimEnd s' with
      | [] => if is_ws c then [] else [c]
      | r => c :: r
      end
  end.

(** [text.trim()] *)
Definition trim (s : jsstring) : jsstring := trimEnd (trimStart s).

(** [s.split(/\s+/)]: the pieces between the maximal runs of white space.
    [in_ws] tells that the previous code unit was white space, so that a run
    separates once.  The empty string splits into one empty piece, and a
    leading or trailing run leaves an empty first or last piece, as in
    JavaScript. *)
Fixpoint split_ws_from (in_ws : bool) (s : jsstring) : list jsstring :=
  match s with
  | [] => [[]]
  | c :: s' =>
      if is_ws c then
        if in_ws then split_ws_from true s' else [] :: split_ws_from true s'
      else
        match split_ws_from false s' with
        | w :: ws => (c :: w) :: ws
        | [] => [[c]]
        end
  end.

Definition split_ws (s : jsstring) : list jsstring := split_ws_from false s.

(** [arr.join(sep)] on an array of strings. *)
Fixpoint join (sep : jsstring) (l : list jsstring) : jsstring :=
  match l with
  | [] => []
  | [x] => x
  | x :: rest => x ++ sep ++ join sep rest
  end.

(** ** Token estimator *)

(** [Math.round(words * 1.3)].  [Math.round] rounds to the nearest integer,
    ties upwards, so on the exact product it is [floor (13 w / 10 + 1/2)].
    The source computes the product in binary64.  The double closest to 1.3
    lies above it by less than 5e-17, so the computed product is off by less
    than [2e-16 * w]: a tie of the exact product stays a tie or moves up, and
    any other exact product is at least 0.1 away from a tie.  The two
    roundings therefore agree for word counts below 10^14, more than the
    length of a string in any engine. *)
Definition round_1_3 (words : Z) : Z := (13 * words + 5) / 10.

(** [text.trim().split(/\s+/).length] *)
Definition wordCount (text : jsstring) : Z :=
  Z.of_nat (length (split_ws (trim text))).

Definition estimateTokens (text : jsstring) : Z :=
  Z.max 1 (round_1_3 (wordCount text)).

(** ** Data model *)

Inductive Role := system | user | assistant.

(** [MessageRecord]; the field [id] is [msg_id] here. *)
Record MessageRecord := {
  msg_id : jsstring;
  role : Role;
  content : jsstring;
  createdAt : Z
}.

(** [ThreadState]; the field [id] is [thread_id] here.  The array
    [messages] is kept inside the record: the manager reaches it through the
    state object only. *)
Record ThreadState := {
  thread_id : jsstring;
  messages : list MessageRecord;
  summary : jsstring;
  lastUpdated : Z
}.

(** The message classes of the completion library that the manager builds. *)
Inductive BaseMessage :=
  | SystemMessage (c : jsstring)
  | HumanMessage (c : jsstring)
  | AIMessage (c : jsstring).

Definition base_content (b : BaseMessage) : jsstring :=
  match b with SystemMessage c | HumanMessage c | AIMessage c => c end.

Definition toBaseMessage (m : MessageRecord) : BaseMessage :=
  match role m with
  | user => HumanMessage (content m)
  | assistant => AIMessage (content m)
  | system => SystemMessage (content m)
  end.

(** [m.role.toUpperCase()] *)
Definition role_upper (r : Role) : jsstring :=
  match r with
  | system => lit "SYSTEM"
  | user => lit "USER"
  | assistant => lit "ASSISTANT"
  end.

(** ** Configuration *)

(** [ConversationManagerOptions] without [model] and [storage]: the model
    is part of the environment below, the storage is [MemoryStorage]. *)
Record ConversationManagerOptions := {
  opt_maxPromptTokens : option Z;
  opt_compressAfterTokens : option Z;
  opt_keepRecent : option Z;
  opt_systemPrompt : option jsstring
}.

(** The private fields of a [ConversationManager]. *)
Record ConversationManager := {
  maxPromptTokens : Z;
  compressAfterTokens : Z;
  keepRecent : Z;
  systemPrompt : jsstring
}.

Definition defaultSystemPrompt : jsstring :=
  lit "You are a helpful, concise assistant. Use the `Thread Summary` for long-term context.".

(** The constructor: [opts.x ?? default]. *)
Definition new_ConversationManager (opts : ConversationManagerOptions)
  : ConversationManager :=
  {| maxPromptTokens := default 6000 (opt_maxPromptTokens opts);
     compressAfterTokens := default 4000 (opt_compressAfterTokens opts);
     keepRecent := default 8 (opt_keepRecent opts);
     systemPrompt := default defaultSystemPrompt (opt_systemPrompt opts) |}.

(** ** Arrays *)

(** The relative index of [Array.prototype.slice]: a negative index counts
    from the end, and the result is clamped to [0 .. len]. *)
Definition slice_index (len rel : Z) : Z :=
  if rel <? 0 then Z.max (len + rel) 0 else Z.min rel len.

(** [arr.slice(start, end)]; [end_ = None] is [arr.slice(start)]. *)
Definition slice {A} (arr : list A) (start : Z) (end_ : option Z) : list A :=
  let len := Z.of_nat (length arr) in
  let k := slice_index len start in
  let final := match end_ with None => len | Some e => slice_index len e end in
  take (Z.to_nat (final - k)) (drop (Z.to_nat k) arr).

(** ** Context assembler (the computation of [buildContext]) *)

(** The header text:
    [`${systemPrompt}\n\n---\nThread Summary (compressed):\n${summary || '(none yet)'}`] *)
Definition headerText (this : ConversationManager) (state : ThreadState)
  : jsstring :=
  systemPrompt this ++ nl ++ nl ++ lit "---" ++ nl ++
  lit "Thread Summary (compressed):" ++ nl ++
  match summary state with
  | [] => lit "(none yet)"
  | s => s
  end.

(** One admission loop of [buildContext]:
    [for (const m of ms) { t = estimateTokens(m.content) + 5;
       if (tokenBudget - t <= 0) break; add m to selected; tokenBudget -= t }].
    [add] is [push] in the first loop and [unshift] in the second. *)
Fixpoint admission (add : MessageRecord -> list MessageRecord -> list MessageRecord)
    (ms : list MessageRecord) (tokenBudget : Z) (selected : list MessageRecord)
  : Z * list MessageRecord :=
  match ms with
  | [] => (tokenBudget, selected)
  | m :: ms' =>
      let t := estimateTokens (content m) + 5 in
      if tokenBudget - t <=? 0 then (tokenBudget, selected)
      else admission add ms' (tokenBudget - t) (add m selected)
  end.

Definition push (m : MessageRecord) (selected : list MessageRecord) :=
  selected ++ [m].
Definition unshift (m : MessageRecord) (selected : list MessageRecord) :=
  m :: selected.

(** The records selected by [buildContext], before [toBaseMessage]. *)
Definition selectMessages (this : ConversationManager) (state : ThreadState)
  : list MessageRecord :=
  let msgs := messages state in
  let recent := slice msgs (- keepRecent this) None in
  let tokenBudget :=
    maxPromptTokens this - estimateTokens (headerText this state) in
  let '(tokenBudget, selected) := admission push recent tokenBudget [] in
  let older :=
    reverse (slice msgs 0
               (Some (Z.max 0 (Z.of_nat (length msgs) - keepRecent this)))) in
  snd (admission unshift older tokenBudget selected).

(** [[header, ...selected.map(toBaseMessage)]] *)
Definition assembleContext (this : ConversationManager) (state : ThreadState)
  : list BaseMessage :=
  SystemMessage (headerText this state)
    :: (toBaseMessage <$> selectMessages this state).

(** The aggregate estimated cost of an assembled context: the estimate of
    the header, and for every other message the estimate of its content
    plus the overhead of 5 per message. *)
Definition contextCost (ctx : list BaseMessage) : Z :=
  match ctx with
  | [] => 0
  | header :: rest =>
      estimateTokens (base_content header)
      + foldr (fun b acc => estimateTokens (base_content b) + 5 + acc) 0 rest
  end.

(** ** Compaction (the computation of [maybeCompress]) *)

(** [estimateTokens(state.messages.map((m) => m.content).join(' \n'))] *)
Definition totalTokens (state : ThreadState) : Z :=
  estimateTokens (join (lit " " ++ nl) (content <$> messages state)).

(** [Math.max(6, Math.floor(state.messages.length * 0.25))]; a quarter is a
    power of two, so the product is exact and its floor is the quotient. *)
Definition chunkSize (state : ThreadState) : Z :=
  Z.max 6 (Z.of_nat (length (messages state)) / 4).

Definition compressionPrompt (oldSummary : jsstring)
    (chunk : list MessageRecord) : list BaseMessage :=
  [ SystemMessage (lit "Summarize the following chat messages into a concise, factual running summary. Keep entities, decisions, and any explicit constraints. Use bullet points.");
    HumanMessage
      (lit "Existing summary (may be empty):" ++ nl ++ oldSummary ++ nl ++ nl ++
       lit "Messages to compress:" ++ nl ++
       join nl ((fun m => role_upper (role m) ++ lit ": " ++ content m) <$> chunk)
       ++ nl ++ nl ++ lit "Return only the updated summary.") ].

(** ** Objects, the in-memory store and the outside world *)

(** A [ThreadState] is a JavaScript object: [getThread] hands out a reference
    to the object the [Map] holds, and the manager mutates that object in
    place.  The heap holds the objects, a reference is an index into it. *)
Abbreviation ref := nat.

Record World := {
  heap : list ThreadState;     (* the allocated ThreadState objects *)
  store : gmap jsstring ref;   (* MemoryStorage.store : Map<string, ThreadState> *)
  tick : nat                   (* number of calls made to the outside so far *)
}.

(** What the manager does not compute itself: [uuid()] (random and time
    dependent), [Date.now()] and [model.invoke], which answers with a text or
    throws.  Each is asked with the number of the call. *)
Record Env := {
  env_uuid : nat -> jsstring;
  env_now : nat -> Z;
  env_invoke : nat -> list BaseMessage -> option jsstring
}.

Inductive Error :=
  | NotFound (threadId : jsstring)  (* Error(`Thread ${threadId} not found. ...`) *)
  | CompletionFailure               (* model.invoke threw *)
  | TypeError.                      (* a reference to no object; no world built
                                       by the manager has one *)

Inductive Result (A : Type) :=
  | Ok (a : A)
  | Throw (e : Error).
Arguments Ok {A} a.
Arguments Throw {A} e.

(** A computation runs in a world and leaves a world, also when it throws:
    what was mutated before the exception stays mutated. *)
Definition M (A : Type) : Type := World -> Result A * World.

Definition ret {A} (a : A) : M A := fun w => (Ok a, w).

Definition bind {A B} (m : M A) (k : A -> M B) : M B :=
  fun w =>
    match m w with
    | (Ok a, w') => k a w'
    | (Throw e, w') => (Throw e, w')
    end.

Notation "'let*' x ':=' m 'in' k" := (bind m (fun x => k))
  (at level 10, x name, m at level 100, k at level 200, only parsing).

Definition throw {A} (e : Error) : M A := fun w => (Throw e, w).

Definition set_heap (h : list ThreadState) (w : World) : World :=
  {| heap := h; store := store w; tick := tick w |}.
Definition set_store (s : gmap jsstring ref) (w : World) : World :=
  {| heap := heap w; store := s; tick := tick w |}.
Definition next_tick (w : World) : World :=
  {| heap := heap w; store := store w; tick := S (tick w) |}.

(** Reading the object behind a reference. *)
Definition deref (r : ref) : M ThreadState :=
  fun w =>
    match heap w !! r with
    | Some st => (Ok st, w)
    | None => (Throw TypeError, w)
    end.

(** Mutating the object behind a reference in place. *)
Definition mutate (r : ref) (f : ThreadState -> ThreadState) : M unit :=
  fun w =>
    match heap w !! r with
    | Some st => (Ok tt, set_heap (<[r := f st]> (heap w)) w)
    | None => (Throw TypeError, w)
    end.

(** [new] of an object literal. *)
Definition alloc (st : ThreadState) : M ref :=
  fun w => (Ok (length (heap w)), set_heap (heap w ++ [st]) w).

Definition with_messages (ms : list MessageRecord) (st : ThreadState) :=
  {| thread_id := thread_id st; messages := ms;
     summary := summary st; lastUpdated := lastUpdated st |}.
Definition with_summary (s : jsstring) (st : ThreadState) :=
  {| thread_id := thread_id st; messages := messages st;
     summary := s; lastUpdated := lastUpdated st |}.
Definition with_lastUpdated (t : Z) (st : ThreadState) :=
  {| thread_id := thread_id st; messages := messages st;
     summary := summary st; lastUpdated := t |}.

(** [arr.splice(0, n)]: removes the first [min(max(n,0), length)] elements
    from the array itself and returns them. *)
Definition splice0 (r : ref) (n : Z) : M (list MessageRecord) :=
  let* st := deref r in
  let* _ := mutate r (with_messages (drop (Z.to_nat n) (messages st))) in
  ret (take (Z.to_nat n) (messages st)).

(** *** MemoryStorage *)

(** [this.store.get(threadId)] *)
Definition getThread (threadId : jsstring) : M (option ref) :=
  fun w => (Ok (store w !! threadId), w).

(** [this.store.set(state.id, state)] *)
Definition saveThread (state : ref) : M unit :=
  let* st := deref state in
  fun w => (Ok tt, set_store (<[thread_id st := state]> (store w)) w).

(** ** ConversationManager *)

Section Manager.

Variable env : Env.
Variable this : ConversationManager.

Definition uuid : M jsstring :=
  fun w => (Ok (env_uuid env (tick w)), next_tick w).

Definition Date_now : M Z :=
  fun w => (Ok (env_now env (tick w)), next_tick w).

(** [await this.model.invoke(prompt)], with [res.content.toString()] *)
Definition invoke (prompt : list BaseMessage) : M jsstring :=
  fun w =>
    match env_invoke env (tick w) prompt with
    | Some text => (Ok text, next_tick w)
    | None => (Throw CompletionFailure, next_tick w)
    end.

Definition requireThread (threadId : jsstring) : M ref :=
  let* state := getThread threadId in
  match state with
  | None => throw (NotFound threadId)
  | Some r => ret r
  end.

(** [initThread(threadId?)]; [None] is a call without argument. *)
Definition initThread (threadId : option jsstring) : M jsstring :=
  let* id := match threadId with Some i => ret i | None => uuid end in
  let* existing := getThread id in
  match existing with
  | Some _ => ret id
  | None =>
      let* now := Date_now in
      let* state := alloc {| thread_id := id; messages := [];
                        summary := []; lastUpdated := now |} in
      let* _ := saveThread state in
      ret id
  end.

Definition addMessage (r : Role) (threadId content : jsstring) : M unit :=
  let* state := requireThread threadId in
  let* id := uuid in
  let* now := Date_now in
  let* _ := mutate state (fun st =>
    with_messages (messages st ++
      [{| msg_id := id; role := r; content := content; createdAt := now |}])
      st) in
  let* now' := Date_now in
  let* _ := mutate state (with_lastUpdated now') in
  saveThread state.

Definition addUserMessage := addMessage user.
Definition addAssistantMessage := addMessage assistant.

Definition buildContext (threadId : jsstring) : M (list BaseMessage) :=
  let* state := requireThread threadId in
  let* st := deref state in
  ret (assembleContext this st).

Definition maybeCompress (threadId : jsstring) : M unit :=
  let* state := requireThread threadId in
  let* st := deref state in
  if totalTokens st <? compressAfterTokens this then ret tt
  else
    let* chunk := splice0 state (chunkSize st) in
    let* st' := deref state in
    let* res := invoke (compressionPrompt (summary st') chunk) in
    let* _ := mutate state (with_summary (trim res)) in
    let* now := Date_now in
    let* _ := mutate state (with_lastUpdated now) in
    saveThread state.

Definition generate (threadId userInput : jsstring) : M jsstring :=
  let* _ := addUserMessage threadId userInput in
  let* _ := maybeCompress threadId in
  let* context := buildContext threadId in
  let* text := invoke context in
  let* _ := addAssistantMessage threadId text in
  ret text.

Definition getThreadView (threadId : jsstring)
  : M (jsstring * list MessageRecord) :=
  let* state := requireThread threadId in
  let* st := deref state in
  ret (summary st, messages st).

End Manager.

(** The thread [threadId] of a world: the object its store entry refers to. *)
Definition thread (w : World) (threadId : jsstring) : option ThreadState :=
  r ← store w !! threadId; heap w !! r.

(** ** Measures used in the statements *)

(** The number of words of a text, counted directly: a word starts at every
    code unit that is not white space and does not continue a word. *)
Fixpoint runs_from (in_word : bool) (s : jsstring) : nat :=
  match s with
  | [] => O
  | c :: s' =>
      if is_ws c then runs_from false s'
      else ((if in_word then 0 else 1) + runs_from true s')%nat
  end.

Definition runs (s : jsstring) : nat := runs_from false s.

(** The estimated cost of a list of records in a context. *)
Definition recordsCost (l : list MessageRecord) : Z :=
  foldr (fun m acc => estimateTokens (content m) + 5 + acc) 0 l.

(** ** Example worlds *)

(** An outside world whose model answers, and one whose model throws. *)
Definition env_ok : Env :=
  {| env_uuid := fun k => lit "id" ++ [N.of_nat k];
     env_now := fun k => Z.of_nat k;
     env_invoke := fun _ _ => Some (lit " - summary ") |}.

Definition env_down : Env :=
  {| env_uuid := env_uuid env_ok;
     env_now := env_now env_ok;
     env_invoke := fun _ _ => None |}.

Definition defaultManager : ConversationManager :=
  new_ConversationManager
    {| opt_maxPromptTokens := None; opt_compressAfterTokens := None;
       opt_keepRecent := None; opt_systemPrompt := None |}.

Definition mkMessage (i : string) (r : Role) (c : string) (t : Z)
  : MessageRecord :=
  {| msg_id := lit i; role := r; content := lit c; createdAt := t |}.

(** A fresh [MemoryStorage]. *)
Definition emptyWorld : World := {| heap := []; store := ∅; tick := 0 |}.

(** A store with the single thread "T", holding [ms] and summary [s]. *)
Definition world_of (ms : list MessageRecord) (s : jsstring) : World :=
  {| heap := [{| thread_id := lit "T"; messages := ms;
                 summary := s; lastUpdated := 0 |}];
     store := {[ lit "T" := 0%nat ]};
     tick := 0 |}.

Definition sixMessages : list MessageRecord :=
  [ mkMessage "m1" user "we are building a chat application" 1;
    mkMessage "m2" assistant "noted" 2;
    mkMessage "m3" user "add vector search" 3;
    mkMessage "m4" assistant "added to the plan" 4;
    mkMessage "m5" user "use hybrid retrieval" 5;
    mkMessage "m6" assistant "done" 6 ].

Definition lastTwo : list MessageRecord :=
  [ mkMessage "m7" user "what should we do next" 7;
    mkMessage "m8" assistant "write the evaluation" 8 ].

Definition eightMessages : list MessageRecord := sixMessages ++ lastTwo.

Definition twoMessages : list MessageRecord :=
  [ mkMessage "m1" user "hello" 1; mkMessage "m2" assistant "hi there" 2 ].

(** A budget below the cost of the header, a window of no message, and a
    compaction threshold of 20 tokens. *)
Definition tightManager : ConversationManager :=
  new_ConversationManager
    {| opt_maxPromptTokens := Some 3; opt_compressAfterTokens := None;
       opt_keepRecent := None; opt_systemPrompt := None |}.

Definition noWindowManager : ConversationManager :=
  new_ConversationManager
    {| opt_maxPromptTokens := None; opt_compressAfterTokens := None;
       opt_keepRecent := Some 0; opt_systemPrompt := None |}.

(** A threshold that the estimate of any text reaches. *)
Definition hairTriggerManager : ConversationManager :=
  new_ConversationManager
    {| opt_maxPromptTokens := None; opt_compressAfterTokens := Some 1;
       opt_keepRecent := None; opt_systemPrompt := None |}.

Definition smallManager : ConversationManager :=
  new_ConversationManager
    {| opt_maxPromptTokens := Some 50; opt_compressAfterTokens := None;
       opt_keepRecent := None; opt_systemPrompt := None |}.

Definition eagerManager : ConversationManager :=
  new_ConversationManager
    {| opt_maxPromptTokens := None; opt_compressAfterTokens := Some 20;
       opt_keepRecent := None; opt_systemPrompt := None |}.

(** ** Consistency of the store *)

(** Every entry of the store refers to an allocated object, and the [id] of
    that object is the key of the entry. *)
Definition consistent (w : World) : Prop :=
  forall (threadId : jsstring) (r : ref),
    store w !! threadId = Some r ->
    exists st, heap w !! r = Some st /\ thread_id st = threadId.

(** The threads other than [threadId] are the same in [w] and [w']. *)
Definition same_elsewhere (threadId : jsstring) (w w' : World) : Prop :=
  forall other : jsstring,
    other <> threadId -> thread w' other = thread w other.

(** The record that [addUserMessage] and [addAssistantMessage] push when
    called in a world at tick [t]: [uuid()] is the call [t], [Date.now()] the
    call [t + 1]. *)
Definition newMessage (env : Env) (t : nat) (r : Role) (text : jsstring)
  : MessageRecord :=
  {| msg_id := env_uuid env t; role := r; content := text;
     createdAt := env_now env (S t) |}.

(** A computation that leaves a consistent store consistent, also when it
    throws. *)
Definition preserves {A} (m : M A) : Prop :=
  forall w, consistent w -> consistent (snd (m w)).

(** The state of a thread after [addUserMessage] or [addAssistantMessage]
    was called at tick [t]: the new record is pushed, and [lastUpdated] is
    the third call to the outside. *)
Definition appended (env : Env) (t : nat) (r : Role) (text : jsstring)
    (st : ThreadState) : ThreadState :=
  with_lastUpdated (env_now env (S (S t)))
    (with_messages (messages st ++ [newMessage env t r text]) st).

(** ** Tool selection ([ToolSelectionManager]) *)

(** The tools of [fundamentals.ts], by category. *)
Inductive Tool :=
  | webSearch | databaseQuery | fileReader        (* informationTools *)
  | calculator | dataTransformer | statistics     (* computationTools *)
  | apiCaller | emailSender | notifier.           (* integrationTools *)

(** [s.startsWith(sub)] *)
Fixpoint startsWith (s sub : jsstring) {struct sub} : bool :=
  match sub, s with
  | [], _ => true
  | _ :: _, [] => false
  | c :: sub', d :: s' => (c =? d)%N && startsWith s' sub'
  end.

(** [s.includes(sub)]: [sub] occurs in [s] at some position. *)
Fixpoint includes (s sub : jsstring) : bool :=
  startsWith s sub
  || match s with
     | [] => false
     | _ :: s' => includes s' sub
     end.

(** Lower-casing of ASCII text; the examples use it for [toLowerCase]. *)
Definition asciiLower (s : jsstring) : jsstring :=
  (fun c => if ((65 <=? c) && (c <=? 90))%N then (c + 32)%N else c) <$> s.

Section ToolSelection.

(** [String.prototype.toLowerCase], which follows the case tables of
    Unicode; the selection is stated for whatever it returns. *)
Variable toLowerCase : jsstring -> jsstring.

(** [selected.push(tool)] under the condition [cond]. *)
Definition push_if (cond : bool) (tool : Tool) (selected : list Tool)
  : list Tool :=
  if cond then selected ++ [tool] else selected.

(** [selectToolsForQuery(query)]; [None] is [undefined]. *)
Definition selectToolsForQuery (query : jsstring) : option (list Tool) :=
  let queryLower := toLowerCase query in
  let selected := [] in
  let selected :=
    push_if (includes queryLower (lit "calculate")
             || includes queryLower (lit "math")) calculator selected in
  let selected :=
    push_if (includes queryLower (lit "search")
             || includes queryLower (lit "web")) webSearch selected in
  let selected :=
    push_if (includes queryLower (lit "email")
             || includes queryLower (lit "send")) emailSender selected in
  if (0 <? length selected)%nat then Some selected else None.

End ToolSelection.

(** ** Asynchronous calls and their interleaving

    The methods of the manager are [async].  A call to an [async] function
    runs its body up to its first [await]; every [await] suspends the caller,
    also on a promise that is settled already; a suspended call is resumed
    later by the event loop, and between a suspension and the resumption
    other calls run.  A task is a call in progress: settled with its result,
    or suspended with what its resumption does, up to its next suspension. *)
Inductive Task (A : Type) : Type :=
  | Settled (r : Result A)
  | Suspended (next : World -> Task A) (effect : World -> World).
Arguments Settled {A} r.
Arguments Suspended {A} next effect.

(** A call: run in a world, it gives the task it has become at its first
    suspension (or at its end) and the world it leaves. *)
Definition Async (A : Type) : Type := World -> Task A * World.

(** The task that, once resumed, runs [p]. *)
Definition suspend {A} (p : Async A) : Task A :=
  Suspended (fun w => fst (p w)) (fun w => snd (p w)).


(** Code without [await]. *)
Definition sync {A} (m : M A) : Async A :=
  fun w => let (r, w') := m w in (Settled r, w').

(** The caller of [await t]: suspended as long as [t] is, and once more when
    [t] is settled. *)
Fixpoint awaiting {A} (t : Task A) : Task A :=
  match t with
  | Settled r => suspend (fun w => (Settled r, w))
  | Suspended next effect => Suspended (fun w => awaiting (next w)) effect
  end.

(** [await p]: the call [p] starts at once, then the caller is suspended. *)
Definition await {A} (p : Async A) : Async A :=
  fun w => let (t, w') := p w in (awaiting t, w').

(** What follows a task: [k] runs in the turn in which [t] settles. *)
Fixpoint andThen {A B} (t : Task A) (k : A -> Async B) : Async B :=
  match t with
  | Settled (Ok a) => k a
  | Settled (Throw e) => fun w => (Settled (Throw e), w)
  | Suspended next effect =>
      fun w => (suspend (fun w1 => andThen (next w1) k (effect w1)), w)
  end.

Definition bindA {A B} (p : Async A) (k : A -> Async B) : Async B :=
  fun w => let (t, w') := p w in andThen t k w'.

Notation "'let!' x ':=' p 'in' k" := (bindA p (fun x => k))
  (at level 10, x name, p at level 100, k at level 200, only parsing).

(** A task run to its end without any other call in between. *)
Fixpoint complete {A} (t : Task A) (w : World) : Result A * World :=
  match t with
  | Settled r => (r, w)
  | Suspended next effect => complete (next w) (effect w)
  end.

Definition completeA {A} (p : Async A) : M A :=
  fun w => let (t, w') := p w in complete t w'.

(** The methods again, with their [await]s.  [getThread] and [saveThread]
    are [async] without an [await] of their own; [model.invoke] sends the
    request and settles when the answer arrives. *)
Section AsyncManager.

Variable env : Env.
Variable this : ConversationManager.

Definition getThreadA (threadId : jsstring) : Async (option ref) :=
  sync (getThread threadId).

Definition saveThreadA (state : ref) : Async unit :=
  sync (saveThread state).

Definition invokeA (prompt : list BaseMessage) : Async jsstring :=
  fun w => (suspend (sync (invoke env prompt)), w).

Definition requireThreadA (threadId : jsstring) : Async ref :=
  let! state := await (getThreadA threadId) in
  match state with
  | None => sync (throw (NotFound threadId))
  | Some r => sync (ret r)
  end.

Definition addMessageA (r : Role) (threadId content : jsstring)
  : Async unit :=
  let! state := await (requireThreadA threadId) in
  let! _ := sync (let* id := uuid env in
                  let* now := Date_now env in
                  let* _ := mutate state (fun st =>
                    with_messages (messages st ++
                      [{| msg_id := id; role := r; content := content;
                          createdAt := now |}]) st) in
                  let* now' := Date_now env in
                  mutate state (with_lastUpdated now')) in
  await (saveThreadA state).

Definition buildContextA (threadId : jsstring) : Async (list BaseMessage) :=
  let! state := await (requireThreadA threadId) in
  sync (let* st := deref state in ret (assembleContext this st)).

Definition maybeCompressA (threadId : jsstring) : Async unit :=
  let! state := await (requireThreadA threadId) in
  let! st := sync (deref state) in
  if totalTokens st <? compressAfterTokens this then sync (ret tt)
  else
    let! prompt := sync (let* chunk := splice0 state (chunkSize st) in
                         let* st' := deref state in
                         ret (compressionPrompt (summary st') chunk)) in
    let! res := await (invokeA prompt) in
    let! _ := sync (let* _ := mutate state (with_summary (trim res)) in
                    let* now := Date_now env in
                    mutate state (with_lastUpdated now)) in
    await (saveThreadA state).

Definition generateA (threadId userInput : jsstring) : Async jsstring :=
  let! _ := await (addMessageA user threadId userInput) in
  let! _ := await (maybeCompressA threadId) in
  let! context := await (buildContextA threadId) in
  let! text := await (invokeA context) in
  let! _ := await (addMessageA assistant threadId text) in
  sync (ret text).

End AsyncManager.







(** Statements about the tasks of one thread, whose object is [r]. *)
Section TaskLogic.

Variable this : ConversationManager.
Variable threadId : jsstring.
Variable r : ref.






End TaskLogic.


(** * Properties *)

(** ** Token estimator *)

Example split_plain : split_ws (lit "a  b c") = [lit "a"; lit "b"; lit "c"].
Proof. reflexivity. Qed.

Example split_lead : split_ws (lit " a ") = [[]; lit "a"; []].
Proof. reflexivity. Qed.

Example estimate_five_words :
  estimateTokens (lit "  one two three four   five ") = 7.
Proof. reflexivity. Qed.

Lemma round_1_3_mono (a b : Z) : a <= b -> round_1_3 a <= round_1_3 b.
Proof.
  intros Hab. unfold round_1_3.
  apply Z.div_le_mono; lia.
Qed.

Lemma wordCount_pos (text : jsstring) : 1 <= wordCount text.
Proof.
  unfold wordCount, split_ws.
  generalize false as b. generalize (trim text) as s.
  induction s as [|c s IH]; intros b; simpl; [lia|].
  destruct (is_ws c).
  - destruct b; simpl; [apply IH | lia].
  - destruct (split_ws_from false s); simpl; lia.
Qed.

Lemma estimateTokens_by_words (s t : jsstring) :
  wordCount s <= wordCount t -> estimateTokens s <= estimateTokens t.
Proof.
  intros H. unfold estimateTokens.
  apply Z.max_le_compat_l, round_1_3_mono, H.
Qed.

(** The estimate of a text with at least one word is the rounded product
    itself: the floor of 1 only matters below one word, which no text has. *)
Lemma estimateTokens_round (text : jsstring) :
  estimateTokens text = round_1_3 (wordCount text).
Proof.
  unfold estimateTokens.
  pose proof (wordCount_pos text) as Hw.
  pose proof (round_1_3_mono 1 (wordCount text) Hw) as Hr.
  change (round_1_3 1) with 1 in Hr. lia.
Qed.

Lemma runs_from_trimStart (s : jsstring) :
  runs_from false (trimStart s) = runs_from false s.
Proof.
  induction s as [|c s IH]; simpl; [reflexivity|].
  destruct (is_ws c) eqn:Hc; [exact IH|].
  simpl. now rewrite Hc.
Qed.

Lemma runs_from_trimEnd (s : jsstring) (b : bool) :
  runs_from b (trimEnd s) = runs_from b s.
Proof.
  revert b. induction s as [|c s IH]; intros b; simpl; [reflexivity|].
  destruct (trimEnd s) as [|d r] eqn:Hr.
  - destruct (is_ws c) eqn:Hc; simpl.
    + now rewrite <- IH.
    + rewrite Hc, <- IH. reflexivity.
  - simpl (runs_from b (c :: d :: r)). destruct (is_ws c); now rewrite <- !IH.
Qed.

Lemma runs_from_app (s u : jsstring) (b : bool) :
  (runs_from b s <= runs_from b (s ++ u))%nat.
Proof.
  revert b. induction s as [|c s IH]; intros b; simpl; [lia|].
  destruct (is_ws c); [apply IH|].
  specialize (IH true). lia.
Qed.

Lemma split_length_pos (b : bool) (s : jsstring) :
  (1 <= length (split_ws_from b s))%nat.
Proof.
  revert b. induction s as [|c s IH]; intros b; simpl; [lia|].
  destruct (is_ws c).
  - destruct b; simpl; [apply IH | lia].
  - destruct (split_ws_from false s); simpl; lia.
Qed.

Lemma split_length_nonws (b : bool) (c : N) (s : jsstring) :
  is_ws c = false ->
  length (split_ws_from b (c :: s)) = length (split_ws_from false s).
Proof.
  intros Hc. simpl. rewrite Hc.
  pose proof (split_length_pos false s).
  destruct (split_ws_from false s); simpl in *; lia.
Qed.

(** On a text without trailing white space, the pieces of the split are
    counted by [runs_from]. *)
Lemma split_length_trimEnd (s : jsstring) :
  length (split_ws_from true (trimEnd s))
    = Nat.max 1 (runs_from false (trimEnd s))
  /\ length (split_ws_from false (trimEnd s))
    = S (runs_from true (trimEnd s))
  /\ (trimEnd s <> [] -> (1 <= runs_from false (trimEnd s))%nat).
Proof.
  induction s as [|c s (IHa & IHb & IHc)]; simpl.
  - repeat split; congruence.
  - destruct (trimEnd s) as [|d r] eqn:Hr.
    + destruct (is_ws c) eqn:Hc; simpl.
      * repeat split; congruence.
      * rewrite Hc. simpl. repeat split; lia.
    + assert (Hne : d :: r <> []) by discriminate.
      specialize (IHc Hne). clear Hne.
      remember (d :: r) as t eqn:Ht. clear Ht Hr.
      destruct (is_ws c) eqn:Hc.
      * simpl. rewrite Hc. simpl. rewrite IHa.
        repeat split; lia.
      * rewrite !(split_length_nonws _ c t Hc), IHb.
        simpl. rewrite Hc.
        repeat split; lia.
Qed.

Lemma trim_head (s : jsstring) :
  match trim s with [] => True | c :: _ => is_ws c = false end.
Proof.
  unfold trim. induction s as [|c s IH]; simpl; [exact I|].
  destruct (is_ws c) eqn:Hc; [exact IH|].
  simpl. destruct (trimEnd s); [rewrite Hc|]; exact Hc.
Qed.

(** The word count of the estimator is the number of words of the text,
    and 1 for a text without words. *)
Lemma wordCount_runs (text : jsstring) :
  wordCount text = Z.of_nat (Nat.max 1 (runs text)).
Proof.
  unfold wordCount, split_ws, runs. f_equal.
  pose proof (trim_head text) as Hh.
  destruct (split_length_trimEnd (trimStart text)) as (Ha & _ & _).
  fold (trim text) in Ha.
  rewrite <- runs_from_trimStart, <- (runs_from_trimEnd (trimStart text)).
  fold (trim text). rewrite <- Ha.
  destruct (trim text) as [|c t]; [reflexivity|].
  now rewrite !(split_length_nonws _ c t Hh).
Qed.

Lemma estimateTokens_app (s u : jsstring) :
  estimateTokens s <= estimateTokens (s ++ u).
Proof.
  apply estimateTokens_by_words. rewrite !wordCount_runs.
  unfold runs. pose proof (runs_from_app s u false). lia.
Qed.

(** C8 (as stated) fails: the estimate is not monotonic in the length of the
    text.  The five code units of "a b c" are three words, estimated at 4;
    the eight code units of "abcdefgh" are one word, estimated at 1. *)
Lemma estimateTokens_length_counterexample :
  (length (lit "a b c") <= length (lit "abcdefgh"))%nat
  /\ ~ estimateTokens (lit "a b c") <= estimateTokens (lit "abcdefgh").
Proof. split; vm_compute; [lia | intros H; now apply H]. Qed.

(** C8 (amended): [estimateTokens] is a function of its text (equal texts,
    equal estimates), it is monotonic in the number of words of the text,
    [text.trim().split(/\s+/).length], and appending to a text never lowers
    its estimate. *)
Theorem estimateTokens_deterministic_monotone_words (s t : jsstring) :
  (s = t -> estimateTokens s = estimateTokens t)
  /\ (wordCount s <= wordCount t -> estimateTokens s <= estimateTokens t)
  /\ estimateTokens s <= estimateTokens (s ++ t).
Proof.
  split; [intros ->; reflexivity|].
  split; [apply estimateTokens_by_words | apply estimateTokens_app].
Qed.

Lemma estimateTokens_deterministic_monotone_words_witness :
  wordCount (lit "abcdefgh") <= wordCount (lit "a b c")
  /\ estimateTokens (lit "abcdefgh") <= estimateTokens (lit "a b c").
Proof.
  assert (H : wordCount (lit "abcdefgh") <= wordCount (lit "a b c"))
    by (vm_compute; discriminate).
  split; [exact H|].
  exact (proj1 (proj2 (estimateTokens_deterministic_monotone_words
                         (lit "abcdefgh") (lit "a b c"))) H).
Defined.

(** C9: [estimateTokens] returns an integer that is at least 1 for every
    text, so never 0 for a non-empty one, and for the empty string it
    returns the fixed floor 1. *)
Theorem estimateTokens_lower_bound :
  (forall text : jsstring, 1 <= estimateTokens text)
  /\ estimateTokens [] = 1.
Proof.
  split; [|reflexivity].
  intros text. unfold estimateTokens. apply Z.le_max_l.
Qed.

(** ** Context assembler *)

Lemma recordsCost_app (l k : list MessageRecord) :
  recordsCost (l ++ k) = recordsCost l + recordsCost k.
Proof. induction l as [|m l IH]; simpl; lia. Qed.

Lemma base_content_toBaseMessage (m : MessageRecord) :
  base_content (toBaseMessage m) = content m.
Proof. unfold toBaseMessage. now destruct (role m). Qed.

Lemma contextCost_assemble (this : ConversationManager) (st : ThreadState) :
  contextCost (assembleContext this st)
  = estimateTokens (headerText this st) + recordsCost (selectMessages this st).
Proof.
  unfold assembleContext, contextCost, base_content at 1. f_equal.
  induction (selectMessages this st) as [|m l IH]; [reflexivity|].
  rewrite fmap_cons. simpl. now rewrite base_content_toBaseMessage, IH.
Qed.

Section Admission.

Variable add : MessageRecord -> list MessageRecord -> list MessageRecord.
Hypothesis add_cost : forall m l,
  recordsCost (add m l) = estimateTokens (content m) + 5 + recordsCost l.

(** What a loop admits it takes out of the budget, and it stops before
    the budget is used up: after an admission the budget is positive. *)
Lemma admission_account (ms : list MessageRecord) (b : Z)
    (sel : list MessageRecord) :
  recordsCost (snd (admission add ms b sel)) + fst (admission add ms b sel)
    = recordsCost sel + b
  /\ (admission add ms b sel = (b, sel) \/ 0 < fst (admission add ms b sel)).
Proof.
  revert b sel. induction ms as [|m ms IH]; intros b sel; simpl.
  - split; [reflexivity | now left].
  - destruct (Z.leb_spec (b - (estimateTokens (content m) + 5)) 0) as [Hle|Hgt].
    + split; [reflexivity | now left].
    + destruct (IH (b - (estimateTokens (content m) + 5)) (add m sel))
        as [Hsum Hpos].
      rewrite add_cost in Hsum. split; [lia|].
      right. destruct Hpos as [-> | Hpos]; simpl; lia.
Qed.

(** A budget of at most 6 admits nothing: every message costs at least 6. *)
Lemma admission_exhausted (ms : list MessageRecord) (b : Z)
    (sel : list MessageRecord) :
  b <= 6 -> admission add ms b sel = (b, sel).
Proof.
  intros Hb. destruct ms as [|m ms]; simpl; [reflexivity|].
  pose proof (Z.le_max_l 1 (round_1_3 (wordCount (content m)))) as H1.
  fold (estimateTokens (content m)) in H1.
  destruct (Z.leb_spec (b - (estimateTokens (content m) + 5)) 0); [reflexivity|lia].
Qed.

End Admission.

Lemma push_cost (m : MessageRecord) (l : list MessageRecord) :
  recordsCost (push m l) = estimateTokens (content m) + 5 + recordsCost l.
Proof. unfold push. rewrite recordsCost_app. simpl. lia. Qed.

Lemma unshift_cost (m : MessageRecord) (l : list MessageRecord) :
  recordsCost (unshift m l) = estimateTokens (content m) + 5 + recordsCost l.
Proof. reflexivity. Qed.

(** The first loop selects a prefix of the window it walks. *)
Lemma admission_push_prefix (ms : list MessageRecord) (b : Z)
    (sel : list MessageRecord) :
  exists p q, ms = p ++ q /\ snd (admission push ms b sel) = sel ++ p.
Proof.
  revert b sel. induction ms as [|m ms IH]; intros b sel; simpl.
  - exists [], []. split; [reflexivity | now rewrite app_nil_r].
  - destruct (b - (estimateTokens (content m) + 5) <=? 0).
    + exists [], (m :: ms). split; [reflexivity | now rewrite app_nil_r].
    + destruct (IH (b - (estimateTokens (content m) + 5)) (push m sel))
        as (p & q & -> & Hsel).
      exists (m :: p), q. split; [reflexivity|].
      rewrite Hsel. unfold push. now rewrite <- app_assoc.
Qed.

(** The second loop puts a prefix of the list it walks, reversed, in front
    of what is selected. *)
Lemma admission_unshift_prefix (ms : list MessageRecord) (b : Z)
    (sel : list MessageRecord) :
  exists p q, ms = p ++ q /\ snd (admission unshift ms b sel) = reverse p ++ sel.
Proof.
  revert b sel. induction ms as [|m ms IH]; intros b sel; simpl.
  - now exists [], [].
  - destruct (b - (estimateTokens (content m) + 5) <=? 0).
    + now exists [], (m :: ms).
    + destruct (IH (b - (estimateTokens (content m) + 5)) (unshift m sel))
        as (p & q & -> & Hsel).
      exists (m :: p), q. split; [reflexivity|].
      rewrite Hsel, reverse_cons. unfold unshift. now rewrite <- app_assoc.
Qed.

(** The total cost of an assembled context and the budget left over add up
    to [maxPromptTokens]; the budget left over is positive unless nothing
    was selected. *)
Lemma selectMessages_account (this : ConversationManager) (st : ThreadState) :
  selectMessages this st = []
  \/ estimateTokens (headerText this st) + recordsCost (selectMessages this st)
     < maxPromptTokens this.
Proof.
  unfold selectMessages.
  set (b0 := maxPromptTokens this - estimateTokens (headerText this st)).
  set (recent := slice (messages st) (- keepRecent this) None).
  set (older := reverse (slice _ 0 _)).
  destruct (admission_account push push_cost recent b0 []) as [Hsum1 Hpos1].
  destruct (admission push recent b0 []) as [b1 sel1] eqn:E1. simpl in *.
  destruct (admission_account unshift unshift_cost older b1 sel1) as [Hsum2 Hpos2].
  destruct (admission unshift older b1 sel1) as [b2 sel2] eqn:E2. simpl in *.
  destruct Hpos2 as [Heq | Hpos2].
  - injection Heq as -> ->. destruct Hpos1 as [Heq | Hpos1].
    + injection Heq as -> ->. now left.
    + right. lia.
  - right. lia.
Qed.

(** With a window of at least one message, the selected records are a
    contiguous stretch of the thread's messages, in their order. *)
Lemma selectMessages_contiguous (this : ConversationManager)
    (st : ThreadState) :
  0 < keepRecent this ->
  exists before after,
    messages st = before ++ selectMessages this st ++ after.
Proof.
  intros Hk. unfold selectMessages, slice, slice_index.
  set (msgs := messages st).
  set (len := Z.of_nat (length msgs)).
  replace (- keepRecent this <? 0) with true by (symmetry; apply Z.ltb_lt; lia).
  replace (0 <? 0) with false by reflexivity.
  replace (Z.max 0 (len - keepRecent this) <? 0) with false
    by (symmetry; apply Z.ltb_ge; lia).
  set (n := Z.to_nat (Z.max (len + - keepRecent this) 0)).
  assert (Hrecent : take (Z.to_nat (len - Z.max (len + - keepRecent this) 0))
                      (drop n msgs) = drop n msgs).
  { apply take_ge. rewrite length_drop. subst n len. lia. }
  rewrite Hrecent.
  assert (Holder : take (Z.to_nat (Z.min (Z.max 0 (len - keepRecent this)) len
                                   - Z.min 0 len))
                     (drop (Z.to_nat (Z.min 0 len)) msgs) = take n msgs).
  { replace (Z.to_nat (Z.min 0 len)) with O by (subst len; lia).
    rewrite drop_0. f_equal. subst n len. lia. }
  rewrite Holder.
  set (b0 := maxPromptTokens this - _).
  destruct (admission_push_prefix (drop n msgs) b0 []) as (p1 & q1 & E1 & S1).
  destruct (admission push (drop n msgs) b0 []) as [b1 sel1]. simpl in S1. subst sel1.
  destruct (admission_unshift_prefix (reverse (take n msgs)) b1 p1)
    as (p2 & q2 & E2 & S2).
  rewrite S2.
  exists (reverse q2), q1.
  rewrite <- (take_drop n msgs) at 1. rewrite E1.
  apply (f_equal reverse) in E2.
  rewrite reverse_involutive, reverse_app in E2. rewrite E2.
  now rewrite <- !app_assoc.
Qed.

(** Hence they are in chronological order without repetition, when the
    messages of the thread have distinct ids. *)
Lemma selectMessages_chronological (this : ConversationManager)
    (st : ThreadState) :
  0 < keepRecent this ->
  selectMessages this st `sublist_of` messages st
  /\ (NoDup (msg_id <$> messages st) ->
      NoDup (msg_id <$> selectMessages this st)).
Proof.
  intros Hk.
  destruct (selectMessages_contiguous this st Hk) as (l1 & l2 & E).
  assert (Hsub : selectMessages this st `sublist_of` messages st).
  { rewrite E. apply sublist_inserts_l, sublist_inserts_r. reflexivity. }
  split; [exact Hsub|].
  intros Hnd. eapply sublist_NoDup; [exact Hnd|].
  now apply fmap_sublist.
Qed.

(** ** Running the operations in a world *)

Lemma thread_lookup (w : World) (threadId : jsstring) (st : ThreadState) :
  thread w threadId = Some st <->
  exists r, store w !! threadId = Some r /\ heap w !! r = Some st.
Proof.
  unfold thread. split.
  - destruct (store w !! threadId) as [r|] eqn:E; simpl; [|discriminate].
    intros H. now exists r.
  - intros (r & -> & H). exact H.
Qed.

Lemma requireThread_found (w : World) (threadId : jsstring) (r : ref) :
  store w !! threadId = Some r -> requireThread threadId w = (Ok r, w).
Proof. intros H. unfold requireThread, bind, getThread. now rewrite H. Qed.

Lemma requireThread_missing (w : World) (threadId : jsstring) :
  store w !! threadId = None ->
  requireThread threadId w = (Throw (NotFound threadId), w).
Proof. intros H. unfold requireThread, bind, getThread. now rewrite H. Qed.

Lemma buildContext_run (this : ConversationManager) (w : World)
    (threadId : jsstring) (st : ThreadState) :
  thread w threadId = Some st ->
  buildContext this threadId w = (Ok (assembleContext this st), w).
Proof.
  intros (r & Hs & Hh)%thread_lookup.
  unfold buildContext, bind. rewrite (requireThread_found _ _ _ Hs).
  unfold deref. now rewrite Hh.
Qed.

(** C2 (as stated) fails: the header is never dropped, so a budget below
    the estimate of the header is exceeded.  With [maxPromptTokens = 3] and
    the default system prompt, the context of an empty thread is the header
    alone, estimated at 25. *)
Lemma buildContext_budget_counterexample :
  exists ctx,
    buildContext tightManager (lit "T") (world_of [] [])
      = (Ok ctx, world_of [] [])
    /\ contextCost ctx = 25
    /\ ~ contextCost ctx <= maxPromptTokens tightManager.
Proof.
  eexists. split; [apply buildContext_run; reflexivity|].
  split; [vm_compute; reflexivity|].
  vm_compute. intros H. now apply H.
Qed.

(** C2 (amended): for every thread state and every configuration whose
    [maxPromptTokens] is at least the estimate of the header, [buildContext]
    returns a list whose aggregate estimated cost (the estimate of the header
    and, for each selected message, the estimate of its content plus the
    overhead of 5) is at most [maxPromptTokens]. *)
Theorem buildContext_budget (this : ConversationManager) (w : World)
    (threadId : jsstring) (st : ThreadState) :
  thread w threadId = Some st ->
  estimateTokens (headerText this st) <= maxPromptTokens this ->
  exists ctx,
    buildContext this threadId w = (Ok ctx, w)
    /\ contextCost ctx <= maxPromptTokens this.
Proof.
  intros Hst Hheader. exists (assembleContext this st).
  split; [now apply buildContext_run|].
  rewrite contextCost_assemble.
  destruct (selectMessages_account this st) as [-> | Hlt]; simpl; lia.
Qed.

Lemma buildContext_budget_witness :
  thread (world_of sixMessages []) (lit "T")
    = Some {| thread_id := lit "T"; messages := sixMessages;
              summary := []; lastUpdated := 0 |}
  /\ exists ctx,
       buildContext defaultManager (lit "T") (world_of sixMessages [])
         = (Ok ctx, world_of sixMessages [])
       /\ contextCost ctx <= maxPromptTokens defaultManager.
Proof.
  split; [reflexivity|].
  apply (buildContext_budget defaultManager (world_of sixMessages []) (lit "T")
           {| thread_id := lit "T"; messages := sixMessages;
              summary := []; lastUpdated := 0 |}).
  - reflexivity.
  - vm_compute. discriminate.
Defined.

(** C5: for every thread state, if [maxPromptTokens] is smaller than the
    estimate of the header, [buildContext] returns the one-element list
    [[header]] and does not throw (nor change the world). *)
Theorem buildContext_header_only (this : ConversationManager) (w : World)
    (threadId : jsstring) (st : ThreadState) :
  thread w threadId = Some st ->
  maxPromptTokens this < estimateTokens (headerText this st) ->
  buildContext this threadId w
    = (Ok [SystemMessage (headerText this st)], w).
Proof.
  intros Hst Hlt. rewrite (buildContext_run this w threadId st Hst).
  unfold assembleContext, selectMessages.
  rewrite (admission_exhausted push) by lia.
  rewrite (admission_exhausted unshift) by lia.
  reflexivity.
Qed.

Lemma buildContext_header_only_witness :
  maxPromptTokens tightManager
    < estimateTokens (headerText tightManager
        {| thread_id := lit "T"; messages := sixMessages;
           summary := lit "the plan so far"; lastUpdated := 0 |})
  /\ buildContext tightManager (lit "T")
       (world_of sixMessages (lit "the plan so far"))
     = (Ok [SystemMessage (headerText tightManager
              {| thread_id := lit "T"; messages := sixMessages;
                 summary := lit "the plan so far"; lastUpdated := 0 |})],
        world_of sixMessages (lit "the plan so far")).
Proof.
  assert (H : maxPromptTokens tightManager
    < estimateTokens (headerText tightManager
        {| thread_id := lit "T"; messages := sixMessages;
           summary := lit "the plan so far"; lastUpdated := 0 |}))
    by (vm_compute; reflexivity).
  split; [exact H|].
  apply (buildContext_header_only tightManager
           (world_of sixMessages (lit "the plan so far")) (lit "T") _
           eq_refl H).
Defined.

(** C3 at the failing input: with [keepRecent = 0], [slice(-0)] is the whole
    array, so the window is every message and the messages before the window
    are every message again.  On a thread of two messages with distinct ids
    and the default budget, [buildContext] returns each message twice: the
    selection repeats ids and is not in the order of the thread. *)
Theorem buildContext_no_window_repeats :
  let st := {| thread_id := lit "T"; messages := twoMessages;
               summary := []; lastUpdated := 0 |} in
  NoDup (msg_id <$> twoMessages)
  /\ selectMessages noWindowManager st = twoMessages ++ twoMessages
  /\ ~ NoDup (msg_id <$> selectMessages noWindowManager st)
  /\ ~ selectMessages noWindowManager st `sublist_of` twoMessages
  /\ buildContext noWindowManager (lit "T") (world_of twoMessages [])
     = (Ok (SystemMessage (headerText noWindowManager st)
              :: (toBaseMessage <$> twoMessages ++ twoMessages)),
        world_of twoMessages []).
Proof.
  intros st.
  assert (Hsel : selectMessages noWindowManager st = twoMessages ++ twoMessages)
    by (vm_compute; reflexivity).
  split; [|split; [exact Hsel|]].
  - refine (bool_decide_unpack _ _). vm_compute. exact I.
  - rewrite Hsel. split; [|split].
    + intros H. apply (bool_decide_pack _) in H. vm_compute in H. exact H.
    + intros H%sublist_length. simpl in H. lia.
    + rewrite (buildContext_run noWindowManager (world_of twoMessages [])
                 (lit "T") st eq_refl).
      unfold assembleContext. now rewrite Hsel.
Qed.

(** ** Compaction *)

Lemma deref_run (w : World) (r : ref) (st : ThreadState) :
  heap w !! r = Some st -> deref r w = (Ok st, w).
Proof. intros H. unfold deref. now rewrite H. Qed.

Lemma mutate_run (w : World) (r : ref) (st : ThreadState)
    (f : ThreadState -> ThreadState) :
  heap w !! r = Some st ->
  mutate r f w = (Ok tt, set_heap (<[r := f st]> (heap w)) w).
Proof. intros H. unfold mutate. now rewrite H. Qed.

Lemma heap_after_mutate (w : World) (r : ref) (st st' : ThreadState) :
  heap w !! r = Some st ->
  heap (set_heap (<[r := st']> (heap w)) w) !! r = Some st'.
Proof.
  intros H. simpl. apply list_lookup_insert_eq. now apply lookup_lt_Some in H.
Qed.

Lemma splice0_run (w : World) (r : ref) (st : ThreadState) (n : Z) :
  heap w !! r = Some st ->
  splice0 r n w
  = (Ok (take (Z.to_nat n) (messages st)),
     set_heap (<[r := with_messages (drop (Z.to_nat n) (messages st)) st]>
                 (heap w)) w).
Proof.
  intros H. unfold splice0, bind.
  now rewrite (deref_run w r st H), (mutate_run w r st _ H).
Qed.

Lemma saveThread_run (w : World) (r : ref) (st : ThreadState) :
  heap w !! r = Some st ->
  saveThread r w = (Ok tt, set_store (<[thread_id st := r]> (store w)) w).
Proof. intros H. unfold saveThread, bind. now rewrite (deref_run w r st H). Qed.

(** The object at [r] is the one last written there. *)
Ltac written_at r Hlen :=
  cbn [heap store tick set_heap set_store next_tick];
  apply list_lookup_insert_eq; rewrite ?length_insert; exact Hlen.

Section Compaction.

Variable env : Env.
Variable this : ConversationManager.
Variables (w : World) (threadId : jsstring) (r : ref) (st : ThreadState).
Hypothesis Hstore : store w !! threadId = Some r.
Hypothesis Hheap : heap w !! r = Some st.

(** Below the threshold, nothing happens. *)
Lemma maybeCompress_skip :
  totalTokens st < compressAfterTokens this ->
  maybeCompress env this threadId w = (Ok tt, w).
Proof.
  intros Hlt. unfold maybeCompress, bind.
  rewrite (requireThread_found w threadId r Hstore), (deref_run w r st Hheap).
  now apply Z.ltb_lt in Hlt as ->.
Qed.

(** The state of the thread object once the chunk is spliced off. *)
Let spliced : ThreadState :=
  with_messages (drop (Z.to_nat (chunkSize st)) (messages st)) st.
Let prompt : list BaseMessage :=
  compressionPrompt (summary st)
    (take (Z.to_nat (chunkSize st)) (messages st)).

(** At the threshold, when the model throws: the exception leaves the
    method after the splice, with the chunk already removed from the
    object the store holds. *)
Lemma maybeCompress_throws :
  compressAfterTokens this <= totalTokens st ->
  env_invoke env (tick w) prompt = None ->
  maybeCompress env this threadId w
  = (Throw CompletionFailure,
     next_tick (set_heap (<[r := spliced]> (heap w)) w)).
Proof.
  intros Hge Hinv. unfold maybeCompress, bind.
  rewrite (requireThread_found w threadId r Hstore), (deref_run w r st Hheap).
  apply Z.ltb_ge in Hge as ->.
  rewrite (splice0_run w r st _ Hheap). fold spliced.
  rewrite (deref_run _ r spliced (heap_after_mutate w r st spliced Hheap)).
  unfold invoke. simpl. fold prompt. now rewrite Hinv.
Qed.

(** At the threshold, when the model answers [res]. *)
Lemma maybeCompress_answers (res : jsstring) :
  compressAfterTokens this <= totalTokens st ->
  env_invoke env (tick w) prompt = Some res ->
  maybeCompress env this threadId w
  = (Ok tt,
     {| heap := <[r := with_lastUpdated (env_now env (S (tick w)))
                         (with_summary (trim res) spliced)]> (heap w);
        store := <[thread_id st := r]> (store w);
        tick := S (S (tick w)) |}).
Proof.
  intros Hge Hinv. unfold maybeCompress, bind.
  rewrite (requireThread_found w threadId r Hstore), (deref_run w r st Hheap).
  apply Z.ltb_ge in Hge as ->.
  rewrite (splice0_run w r st _ Hheap). fold spliced.
  pose proof (heap_after_mutate w r st spliced Hheap) as H1.
  rewrite (deref_run _ r spliced H1).
  unfold invoke. cbn [tick set_heap]. change (summary spliced) with (summary st).
  fold prompt. rewrite Hinv.
  assert (Hlen : (r < length (heap w))%nat) by now apply lookup_lt_Some in Hheap.
  erewrite mutate_run by (written_at r Hlen).
  unfold Date_now. cbn [heap tick store set_heap next_tick].
  erewrite mutate_run by (written_at r Hlen).
  cbn [heap tick store set_heap].
  erewrite saveThread_run by (written_at r Hlen).
  unfold set_store. cbn [heap tick store set_heap next_tick].
  rewrite !list_insert_insert_eq. reflexivity.
Qed.

End Compaction.

(** C4 (as stated) fails on an empty thread: the estimate of the empty
    text is 1, so with [compressAfterTokens = 1] the trigger fires, the
    splice removes nothing, the model is asked and the summary rewritten,
    and the length stays 0: it does not strictly decrease. *)
Lemma maybeCompress_progress_counterexample :
  let st := {| thread_id := lit "T"; messages := [];
               summary := []; lastUpdated := 0 |} in
  thread (world_of [] []) (lit "T") = Some st
  /\ compressAfterTokens hairTriggerManager <= totalTokens st
  /\ exists w' st',
       maybeCompress env_ok hairTriggerManager (lit "T") (world_of [] [])
         = (Ok tt, w')
       /\ thread w' (lit "T") = Some st'
       /\ summary st' = lit "- summary"
       /\ ~ (length (messages st') < length (messages st))%nat.
Proof.
  intros st. split; [reflexivity|]. split; [vm_compute; discriminate|].
  eexists _, _. split.
  - apply (maybeCompress_answers env_ok hairTriggerManager (world_of [] [])
             (lit "T") 0%nat st eq_refl eq_refl (lit " - summary ")).
    + vm_compute. discriminate.
    + reflexivity.
  - split; [reflexivity|]. split; [reflexivity|]. cbn. lia.
Qed.

(** C4 (amended): whenever the trigger fires (the estimate of the joined
    contents of all messages is at least [compressAfterTokens]),
    [maybeCompress] removes the first [max(6, floor(length * 0.25))]
    messages of the thread, or all of them if there are fewer, whatever the
    model then answers.  So the length goes down by at least 6, or to zero;
    and on a thread that is not empty it strictly decreases. *)
Theorem maybeCompress_removes_oldest_chunk (env : Env)
    (this : ConversationManager) (w : World) (threadId : jsstring)
    (st : ThreadState) :
  thread w threadId = Some st ->
  compressAfterTokens this <= totalTokens st ->
  exists res w' st',
    maybeCompress env this threadId w = (res, w')
    /\ thread w' threadId = Some st'
    /\ messages st'
       = drop (Z.to_nat (Z.max 6 (Z.of_nat (length (messages st)) / 4)))
           (messages st)
    /\ (length (messages st')
        = length (messages st)
          - Nat.min (length (messages st))
              (Nat.max 6 (length (messages st) / 4)))%nat
    /\ ((length (messages st') + 6 <= length (messages st))%nat
        \/ messages st' = [])
    /\ (messages st <> [] ->
        (length (messages st') < length (messages st))%nat).
Proof.
  intros (r & Hs & Hh)%thread_lookup Hge.
  set (n := Z.to_nat (Z.max 6 (Z.of_nat (length (messages st)) / 4))).
  assert (Hn : n = Nat.max 6 (length (messages st) / 4)).
  { subst n. rewrite Z2Nat.inj_max, <- (Nat2Z.inj_div _ 4), Nat2Z.id.
    reflexivity. }
  assert (Hlen : (r < length (heap w))%nat) by now apply lookup_lt_Some in Hh.
  assert (Hshape : forall st',
    messages st' = drop n (messages st) ->
    messages st' = drop n (messages st)
    /\ (length (messages st')
        = length (messages st)
          - Nat.min (length (messages st))
              (Nat.max 6 (length (messages st) / 4)))%nat
    /\ ((length (messages st') + 6 <= length (messages st))%nat
        \/ messages st' = [])
    /\ (messages st <> [] ->
        (length (messages st') < length (messages st))%nat)).
  { intros st' E. split; [exact E|]. rewrite E, length_drop, <- Hn.
    split; [lia|]. split.
    - destruct (le_lt_dec (length (messages st)) n) as [Hle|Hlt].
      + right. now apply drop_ge.
      + left. lia.
    - intros Hne. destruct (messages st); [congruence|]. cbn [length]. lia. }
  destruct (env_invoke env (tick w)
              (compressionPrompt (summary st) (take n (messages st))))
    as [res|] eqn:Hinv.
  - eexists _, _, _. split;
      [exact (maybeCompress_answers env this w threadId r st Hs Hh res Hge Hinv)|].
    split.
    + apply thread_lookup. exists r. cbn [store heap]. split.
      * destruct (decide (thread_id st = threadId)) as [->|Hne];
          [apply lookup_insert_eq | now rewrite lookup_insert_ne].
      * now apply list_lookup_insert_eq.
    + now apply Hshape.
  - eexists _, _, _. split;
      [exact (maybeCompress_throws env this w threadId r st Hs Hh Hge Hinv)|].
    split.
    + apply thread_lookup. exists r. cbn [store heap set_heap next_tick].
      split; [exact Hs | now apply list_lookup_insert_eq].
    + now apply Hshape.
Qed.

Lemma maybeCompress_removes_oldest_chunk_witness :
  compressAfterTokens eagerManager
    <= totalTokens {| thread_id := lit "T"; messages := eightMessages;
                      summary := []; lastUpdated := 0 |}
  /\ exists res w' st',
       maybeCompress env_ok eagerManager (lit "T") (world_of eightMessages [])
         = (res, w')
       /\ thread w' (lit "T") = Some st'
       /\ messages st'
          = drop (Z.to_nat (Z.max 6 (Z.of_nat (length eightMessages) / 4)))
              eightMessages
       /\ (length (messages st')
           = length eightMessages
             - Nat.min (length eightMessages)
                 (Nat.max 6 (length eightMessages / 4)))%nat
       /\ ((length (messages st') + 6 <= length eightMessages)%nat
           \/ messages st' = [])
       /\ (eightMessages <> [] ->
           (length (messages st') < length eightMessages)%nat).
Proof.
  assert (H : compressAfterTokens eagerManager
    <= totalTokens {| thread_id := lit "T"; messages := eightMessages;
                      summary := []; lastUpdated := 0 |})
    by (vm_compute; discriminate).
  split; [exact H|].
  exact (maybeCompress_removes_oldest_chunk env_ok eagerManager
           (world_of eightMessages []) (lit "T")
           {| thread_id := lit "T"; messages := eightMessages;
              summary := []; lastUpdated := 0 |} eq_refl H).
Defined.

(** C1 at the failing input: a thread of eight messages with the summary
    "old summary", a threshold of 20 tokens and a model that throws.
    [maybeCompress] throws the failure of the model, and the thread the
    store then holds has lost its six oldest messages; its summary is the
    old one, which does not account for them. *)
Theorem maybeCompress_failure_loses_chunk :
  let w := world_of eightMessages (lit "old summary") in
  exists w' st',
    maybeCompress env_down eagerManager (lit "T") w
      = (Throw CompletionFailure, w')
    /\ thread w (lit "T")
       = Some {| thread_id := lit "T"; messages := eightMessages;
                 summary := lit "old summary"; lastUpdated := 0 |}
    /\ thread w' (lit "T") = Some st'
    /\ messages st' = lastTwo
    /\ messages st' <> eightMessages
    /\ summary st' = lit "old summary".
Proof.
  intros w. eexists _, _. split.
  - apply (maybeCompress_throws env_down eagerManager w (lit "T") 0%nat
             {| thread_id := lit "T"; messages := eightMessages;
                summary := lit "old summary"; lastUpdated := 0 |}).
    + reflexivity.
    + reflexivity.
    + vm_compute. discriminate.
    + reflexivity.
  - split; [reflexivity|]. split; [reflexivity|].
    split; [reflexivity|]. split; [discriminate | reflexivity].
Qed.

(** In general: whenever the model throws during compaction, the thread is
    left without the chunk and with its old summary. *)
Lemma maybeCompress_failure_state (env : Env) (this : ConversationManager)
    (w : World) (threadId : jsstring) (st : ThreadState) :
  thread w threadId = Some st ->
  compressAfterTokens this <= totalTokens st ->
  env_invoke env (tick w)
    (compressionPrompt (summary st)
       (take (Z.to_nat (chunkSize st)) (messages st))) = None ->
  exists w',
    maybeCompress env this threadId w = (Throw CompletionFailure, w')
    /\ thread w' threadId
       = Some (with_messages (drop (Z.to_nat (chunkSize st)) (messages st)) st).
Proof.
  intros (r & Hs & Hh)%thread_lookup Hge Hinv.
  eexists. split;
    [exact (maybeCompress_throws env this w threadId r st Hs Hh Hge Hinv)|].
  apply thread_lookup. exists r. cbn [store heap set_heap next_tick].
  split; [exact Hs|]. apply list_lookup_insert_eq.
  now apply lookup_lt_Some in Hh.
Qed.

(** ** Thread lifecycle *)

(** C6: in a store that already holds a thread with id [X], [initThread(X)]
    returns [X] and leaves the whole world as it was, so the thread keeps its
    [messages], its [summary] and the rest of its state; calling it twice
    returns [X] both times. *)
Theorem initThread_existing (env : Env) (w : World) (X : jsstring)
    (st : ThreadState) :
  thread w X = Some st ->
  initThread env (Some X) w = (Ok X, w)
  /\ (let* first := initThread env (Some X) in
      let* second := initThread env (Some X) in
      ret (first, second)) w = (Ok (X, X), w)
  /\ thread (snd (initThread env (Some X) w)) X = Some st.
Proof.
  intros Hst. pose proof Hst as (r & Hs & _)%thread_lookup.
  assert (H1 : initThread env (Some X) w = (Ok X, w)).
  { unfold initThread, bind, ret, getThread. now rewrite Hs. }
  split; [exact H1|]. split.
  - unfold bind at 1. rewrite H1. unfold bind at 1. now rewrite H1.
  - now rewrite H1.
Qed.

Lemma initThread_existing_witness :
  initThread env_ok (Some (lit "T")) (world_of eightMessages (lit "old summary"))
    = (Ok (lit "T"), world_of eightMessages (lit "old summary"))
  /\ (let* first := initThread env_ok (Some (lit "T")) in
      let* second := initThread env_ok (Some (lit "T")) in
      ret (first, second)) (world_of eightMessages (lit "old summary"))
     = (Ok (lit "T", lit "T"), world_of eightMessages (lit "old summary"))
  /\ thread (snd (initThread env_ok (Some (lit "T"))
                    (world_of eightMessages (lit "old summary")))) (lit "T")
     = Some {| thread_id := lit "T"; messages := eightMessages;
               summary := lit "old summary"; lastUpdated := 0 |}.
Proof.
  exact (initThread_existing env_ok
           (world_of eightMessages (lit "old summary")) (lit "T")
           {| thread_id := lit "T"; messages := eightMessages;
              summary := lit "old summary"; lastUpdated := 0 |} eq_refl).
Defined.

(** C7: every operation of the manager other than [initThread], called with
    a thread id that the store does not hold, throws the not-found error for
    that id and leaves the world as it was. *)
Theorem unknown_thread_NotFound (env : Env) (this : ConversationManager)
    (w : World) (threadId text : jsstring) :
  store w !! threadId = None ->
  addUserMessage env threadId text w = (Throw (NotFound threadId), w)
  /\ addAssistantMessage env threadId text w = (Throw (NotFound threadId), w)
  /\ buildContext this threadId w = (Throw (NotFound threadId), w)
  /\ maybeCompress env this threadId w = (Throw (NotFound threadId), w)
  /\ generate env this threadId text w = (Throw (NotFound threadId), w)
  /\ getThreadView threadId w = (Throw (NotFound threadId), w).
Proof.
  intros Hnone.
  pose proof (requireThread_missing w threadId Hnone) as Hreq.
  assert (Hadd : forall r,
    addMessage env r threadId text w = (Throw (NotFound threadId), w)).
  { intros r. unfold addMessage, bind. now rewrite Hreq. }
  repeat split.
  - apply Hadd.
  - apply Hadd.
  - unfold buildContext, bind. now rewrite Hreq.
  - unfold maybeCompress, bind. now rewrite Hreq.
  - unfold generate, bind, addUserMessage. now rewrite Hadd.
  - unfold getThreadView, bind. now rewrite Hreq.
Qed.

Lemma unknown_thread_NotFound_witness :
  store (world_of eightMessages []) !! lit "U" = None
  /\ generate env_ok defaultManager (lit "U") (lit "hello")
       (world_of eightMessages [])
     = (Throw (NotFound (lit "U")), world_of eightMessages []).
Proof.
  assert (H : store (world_of eightMessages []) !! lit "U" = None)
    by reflexivity.
  split; [exact H|].
  exact (proj1 (proj2 (proj2 (proj2 (proj2
           (unknown_thread_NotFound env_ok defaultManager
              (world_of eightMessages []) (lit "U") (lit "hello") H)))))).
Defined.

(** ** A first turn *)

(** On a fresh store, [initThread("T")] creates the empty thread, and a
    turn with the input "hello" under a budget of 50 sends the header and the
    user message to the model and leaves two messages in the thread. *)
Example first_turn :
  exists w1 w2 d1 d2 d3 d4,
    initThread env_ok (Some (lit "T")) emptyWorld = (Ok (lit "T"), w1)
    /\ thread w1 (lit "T")
       = Some {| thread_id := lit "T"; messages := [];
                 summary := []; lastUpdated := d1 |}
    /\ (let* _ := addUserMessage env_ok (lit "T") (lit "hello") in
        buildContext smallManager (lit "T")) w1
       = (Ok [SystemMessage (headerText smallManager
                {| thread_id := lit "T"; messages := [];
                   summary := []; lastUpdated := d1 |});
              HumanMessage (lit "hello")], w2)
    /\ (messages <$> thread
          (snd (generate env_ok smallManager (lit "T") (lit "hello") w1))
          (lit "T"))
       = Some [ {| msg_id := d2; role := user; content := lit "hello";
                   createdAt := d3 |};
                {| msg_id := d4; role := assistant;
                   content := lit " - summary "; createdAt := 6 |} ].
Proof.
  eexists _, _, _, _, _, _.
  split; [vm_compute; reflexivity|].
  split; [vm_compute; reflexivity|].
  split; vm_compute; reflexivity.
Qed.

(** ** The store stays consistent *)

Lemma consistent_thread (w : World) (threadId : jsstring) (r : ref) :
  consistent w -> store w !! threadId = Some r ->
  exists st, heap w !! r = Some st /\ thread_id st = threadId
             /\ thread w threadId = Some st.
Proof.
  intros Hc Hs. destruct (Hc threadId r Hs) as (st & Hh & Hid).
  exists st. repeat split; try assumption.
  apply thread_lookup. now exists r.
Qed.


(** Writing a new state with the same [id] into the object of a thread and
    saving it touches that thread only. *)
Lemma update_thread_spec (w : World) (threadId : jsstring) (r : ref)
    (st st' : ThreadState) (t : nat) :
  consistent w ->
  store w !! threadId = Some r -> heap w !! r = Some st ->
  thread_id st' = thread_id st ->
  let w' := {| heap := <[r := st']> (heap w);
               store := <[thread_id st := r]> (store w);
               tick := t |} in
  consistent w' /\ thread w' threadId = Some st'
  /\ same_elsewhere threadId w w'.
Proof.
  intros Hc Hs Hh Hid w'.
  assert (Hkey : thread_id st = threadId).
  { destruct (Hc threadId r Hs) as (st0 & Hh0 & Hid0). congruence. }
  assert (Hlen : (r < length (heap w))%nat) by now apply lookup_lt_Some in Hh.
  assert (Hstore : store w' = store w).
  { subst w'. cbn [store]. rewrite Hkey. now apply insert_id. }
  assert (Hother : forall other r',
    other <> threadId -> store w !! other = Some r' -> r' <> r).
  { intros other r' Hne Hs' ->.
    destruct (Hc other r Hs') as (st0 & Hh0 & Hid0). congruence. }
  split; [|split].
  - intros other r'. rewrite Hstore. intros Hs'.
    destruct (decide (other = threadId)) as [->|Hne].
    + assert (r' = r) as -> by congruence.
      exists st'. split; [now apply list_lookup_insert_eq | congruence].
    + destruct (Hc other r' Hs') as (st0 & Hh0 & Hid0).
      exists st0. split; [|exact Hid0]. subst w'. cbn [heap].
      rewrite list_lookup_insert_ne; [exact Hh0|].
      intros ->. now apply (Hother other r').
  - apply thread_lookup. exists r. rewrite Hstore.
    split; [exact Hs | now apply list_lookup_insert_eq].
  - intros other Hne. unfold thread. rewrite Hstore.
    destruct (store w !! other) as [r'|] eqn:Hs'; [|reflexivity].
    simpl. subst w'. cbn [heap]. apply list_lookup_insert_ne.
    intros ->. now apply (Hother other r').
Qed.

(** ** Appending a message *)

Lemma addMessage_run (env : Env) (role : Role) (w : World)
    (threadId text : jsstring) (r : ref) (st : ThreadState) :
  store w !! threadId = Some r -> heap w !! r = Some st ->
  addMessage env role threadId text w
  = (Ok tt,
     {| heap := <[r := with_lastUpdated (env_now env (S (S (tick w))))
                         (with_messages
                            (messages st ++ [newMessage env (tick w) role text])
                            st)]> (heap w);
        store := <[thread_id st := r]> (store w);
        tick := S (S (S (tick w))) |}).
Proof.
  intros Hs Hh. unfold addMessage, bind.
  rewrite (requireThread_found w threadId r Hs).
  assert (Hlen : (r < length (heap w))%nat) by now apply lookup_lt_Some in Hh.
  unfold uuid, Date_now. cbn [heap tick store set_heap next_tick].
  erewrite mutate_run by (cbn [heap]; exact Hh).
  cbn [heap tick store set_heap next_tick].
  erewrite mutate_run by (written_at r Hlen).
  cbn [heap tick store set_heap].
  erewrite saveThread_run by (written_at r Hlen).
  unfold set_store. cbn [heap tick store set_heap next_tick].
  rewrite !list_insert_insert_eq. reflexivity.
Qed.

Lemma addMessage_spec (env : Env) (role : Role) (w : World)
    (threadId text : jsstring) (st : ThreadState) :
  consistent w -> thread w threadId = Some st ->
  exists w',
    addMessage env role threadId text w = (Ok tt, w')
    /\ consistent w'
    /\ tick w' = S (S (S (tick w)))
    /\ thread w' threadId
       = Some (with_lastUpdated (env_now env (S (S (tick w))))
                 (with_messages
                    (messages st ++ [newMessage env (tick w) role text]) st))
    /\ same_elsewhere threadId w w'.
Proof.
  intros Hc (r & Hs & Hh)%thread_lookup.
  eexists. split; [exact (addMessage_run env role w threadId text r st Hs Hh)|].
  destruct (update_thread_spec w threadId r st
              (with_lastUpdated (env_now env (S (S (tick w))))
                 (with_messages
                    (messages st ++ [newMessage env (tick w) role text]) st))
              (S (S (S (tick w)))) Hc Hs Hh eq_refl) as (H1 & H2 & H3).
  repeat split; assumption.
Qed.

(** ** Compaction, on a consistent store *)

Lemma maybeCompress_answers_spec (env : Env) (this : ConversationManager)
    (w : World) (threadId : jsstring) (st : ThreadState) (res : jsstring) :
  consistent w -> thread w threadId = Some st ->
  compressAfterTokens this <= totalTokens st ->
  env_invoke env (tick w)
    (compressionPrompt (summary st)
       (take (Z.to_nat (chunkSize st)) (messages st))) = Some res ->
  exists w',
    maybeCompress env this threadId w = (Ok tt, w')
    /\ consistent w'
    /\ tick w' = S (S (tick w))
    /\ thread w' threadId
       = Some {| thread_id := thread_id st;
                 messages := drop (Z.to_nat (chunkSize st)) (messages st);
                 summary := trim res;
                 lastUpdated := env_now env (S (tick w)) |}
    /\ same_elsewhere threadId w w'.
Proof.
  intros Hc (r & Hs & Hh)%thread_lookup Hge Hinv.
  eexists. split;
    [exact (maybeCompress_answers env this w threadId r st Hs Hh res Hge Hinv)|].
  destruct (update_thread_spec w threadId r st
              {| thread_id := thread_id st;
                 messages := drop (Z.to_nat (chunkSize st)) (messages st);
                 summary := trim res;
                 lastUpdated := env_now env (S (tick w)) |}
              (S (S (tick w))) Hc Hs Hh eq_refl) as (H1 & H2 & H3).
  repeat split; assumption.
Qed.

Lemma maybeCompress_skip_spec (env : Env) (this : ConversationManager)
    (w : World) (threadId : jsstring) (st : ThreadState) :
  thread w threadId = Some st ->
  totalTokens st < compressAfterTokens this ->
  maybeCompress env this threadId w = (Ok tt, w).
Proof.
  intros (r & Hs & Hh)%thread_lookup Hlt.
  exact (maybeCompress_skip env this w threadId r st Hs Hh Hlt).
Qed.

Lemma preserves_bind {A B} (m : M A) (k : A -> M B) :
  preserves m -> (forall a, preserves (k a)) -> preserves (bind m k).
Proof.
  intros Hm Hk w Hc. unfold bind. specialize (Hm w Hc).
  destruct (m w) as [[a|e] w']; simpl in *; [now apply Hk | exact Hm].
Qed.

Lemma preserves_unchanged {A} (m : M A) :
  (forall w, store (snd (m w)) = store w /\ heap (snd (m w)) = heap w) ->
  preserves m.
Proof.
  intros Hm w Hc k r. destruct (Hm w) as [-> ->]. apply Hc.
Qed.

Lemma consistent_world_of (ms : list MessageRecord) (s : jsstring) :
  consistent (world_of ms s).
Proof.
  intros k r H. cbn [store world_of] in H.
  apply lookup_singleton_Some in H as [<- <-].
  eexists. split; reflexivity.
Qed.

Lemma consistent_emptyWorld : consistent emptyWorld.
Proof. intros k r H. cbn in H. now rewrite lookup_empty in H. Qed.

Lemma preserves_invoke (env : Env) (prompt : list BaseMessage) :
  preserves (invoke env prompt).
Proof.
  apply preserves_unchanged. intros w. unfold invoke.
  now destruct (env_invoke env (tick w) prompt).
Qed.

Lemma preserves_buildContext (this : ConversationManager)
    (threadId : jsstring) :
  preserves (buildContext this threadId).
Proof.
  apply preserves_unchanged. intros w. unfold buildContext, bind.
  destruct (store w !! threadId) as [r|] eqn:Hs.
  - rewrite (requireThread_found w threadId r Hs). unfold deref.
    destruct (heap w !! r); now split.
  - now rewrite (requireThread_missing w threadId Hs).
Qed.

Lemma preserves_addMessage (env : Env) (role : Role)
    (threadId text : jsstring) :
  preserves (addMessage env role threadId text).
Proof.
  intros w Hc. destruct (store w !! threadId) as [r|] eqn:Hs.
  - destruct (consistent_thread w threadId r Hc Hs) as (st & _ & _ & Hst).
    destruct (addMessage_spec env role w threadId text st Hc Hst)
      as (w' & -> & Hc' & _). exact Hc'.
  - unfold addMessage, bind.
    now rewrite (requireThread_missing w threadId Hs).
Qed.

Lemma preserves_maybeCompress (env : Env) (this : ConversationManager)
    (threadId : jsstring) :
  preserves (maybeCompress env this threadId).
Proof.
  intros w Hc. destruct (store w !! threadId) as [r|] eqn:Hs.
  - destruct (consistent_thread w threadId r Hc Hs) as (st & Hh & _ & Hst).
    destruct (Z.lt_ge_cases (totalTokens st) (compressAfterTokens this))
      as [Hlt|Hge].
    + now rewrite (maybeCompress_skip_spec env this w threadId st Hst Hlt).
    + destruct (env_invoke env (tick w)
                  (compressionPrompt (summary st)
                     (take (Z.to_nat (chunkSize st)) (messages st))))
        as [res|] eqn:Hinv.
      * destruct (maybeCompress_answers_spec env this w threadId st res
                    Hc Hst Hge Hinv) as (w' & -> & Hc' & _). exact Hc'.
      * rewrite (maybeCompress_throws env this w threadId r st Hs Hh Hge Hinv).
        cbn [snd]. intros k r' Hk. cbn [store heap set_heap next_tick] in *.
        destruct (Hc k r' Hk) as (st0 & Hh0 & Hid0).
        destruct (decide (r' = r)) as [->|Hne].
        -- eexists. split;
             [apply list_lookup_insert_eq; now apply lookup_lt_Some in Hh|].
           cbn. congruence.
        -- exists st0. now rewrite list_lookup_insert_ne.
  - unfold maybeCompress, bind.
    now rewrite (requireThread_missing w threadId Hs).
Qed.

Lemma initThread_fresh_run (env : Env) (w : World) (X : jsstring) :
  store w !! X = None ->
  initThread env (Some X) w
  = (Ok X,
     {| heap := heap w ++ [{| thread_id := X; messages := [];
                              summary := []; lastUpdated := env_now env (tick w) |}];
        store := <[X := length (heap w)]> (store w);
        tick := S (tick w) |}).
Proof.
  intros Hs. unfold initThread, bind, ret, getThread. rewrite Hs.
  unfold Date_now, alloc. cbn [heap tick store set_heap next_tick].
  erewrite saveThread_run
    by (cbn [heap]; apply list_lookup_middle; reflexivity).
  reflexivity.
Qed.

Lemma initThread_fresh_spec (env : Env) (w : World) (X : jsstring) :
  consistent w -> store w !! X = None ->
  exists w',
    initThread env (Some X) w = (Ok X, w')
    /\ consistent w'
    /\ thread w' X
       = Some {| thread_id := X; messages := []; summary := [];
                 lastUpdated := env_now env (tick w) |}
    /\ same_elsewhere X w w'.
Proof.
  intros Hc Hs. eexists. split; [exact (initThread_fresh_run env w X Hs)|].
  split; [|split].
  - intros k r. cbn [store heap]. intros Hk.
    destruct (decide (k = X)) as [->|Hne].
    + rewrite lookup_insert_eq in Hk. injection Hk as <-.
      eexists. split; [apply list_lookup_middle; reflexivity | reflexivity].
    + rewrite lookup_insert_ne in Hk by congruence.
      destruct (Hc k r Hk) as (st0 & Hh0 & Hid0).
      exists st0. split; [|exact Hid0].
      rewrite lookup_app_l; [exact Hh0 | now apply lookup_lt_Some in Hh0].
  - apply thread_lookup. eexists. cbn [store heap].
    split; [apply lookup_insert_eq | apply list_lookup_middle; reflexivity].
  - intros other Hne. unfold thread. cbn [store heap].
    rewrite lookup_insert_ne by congruence.
    destruct (store w !! other) as [r|] eqn:Hk; [|reflexivity]. simpl.
    destruct (Hc other r Hk) as (st0 & Hh0 & _).
    rewrite lookup_app_l; [reflexivity | now apply lookup_lt_Some in Hh0].
Qed.

Lemma preserves_initThread (env : Env) (threadId : option jsstring) :
  preserves (initThread env threadId).
Proof.
  assert (Hsome : forall X, preserves (initThread env (Some X))).
  { intros X w Hc. destruct (store w !! X) as [r|] eqn:Hs.
    - destruct (consistent_thread w X r Hc Hs) as (st & _ & _ & Hst).
      unfold initThread, bind, ret, getThread. now rewrite Hs.
    - destruct (initThread_fresh_spec env w X Hc Hs) as (w' & -> & Hc' & _).
      exact Hc'. }
  destruct threadId as [X|]; [apply Hsome|].
  intros w Hc.
  assert (Hnt : consistent (next_tick w)) by exact Hc.
  specialize (Hsome (env_uuid env (tick w)) (next_tick w) Hnt).
  exact Hsome.
Qed.

(** ** A turn *)

Lemma same_elsewhere_trans (threadId : jsstring) (w1 w2 w3 : World) :
  same_elsewhere threadId w1 w2 -> same_elsewhere threadId w2 w3 ->
  same_elsewhere threadId w1 w3.
Proof. intros H12 H23 other Hne. now rewrite H23, H12. Qed.


(** The end of a turn, from the assembly of the context on, when the model
    answers [text]. *)
Lemma generate_tail_answers (env : Env) (this : ConversationManager)
    (w : World) (threadId text : jsstring) (st : ThreadState) :
  consistent w -> thread w threadId = Some st ->
  env_invoke env (tick w) (assembleContext this st) = Some text ->
  exists w',
    (let* context := buildContext this threadId in
     let* answer := invoke env context in
     let* _ := addAssistantMessage env threadId answer in
     ret answer) w = (Ok text, w')
    /\ consistent w'
    /\ thread w' threadId = Some (appended env (S (tick w)) assistant text st)
    /\ same_elsewhere threadId w w'.
Proof.
  intros Hc Hst Hinv. unfold bind at 1.
  rewrite (buildContext_run this w threadId st Hst).
  unfold bind at 1. unfold invoke. rewrite Hinv.
  destruct (addMessage_spec env assistant (next_tick w) threadId text st Hc Hst)
    as (w' & Hrun & Hc' & _ & Hst' & Hframe).
  exists w'. unfold bind, addAssistantMessage. rewrite Hrun.
  repeat split; assumption.
Qed.

(** The same, when the model throws. *)
Lemma generate_tail_throws (env : Env) (this : ConversationManager)
    (w : World) (threadId : jsstring) (st : ThreadState) :
  thread w threadId = Some st ->
  env_invoke env (tick w) (assembleContext this st) = None ->
  (let* context := buildContext this threadId in
   let* answer := invoke env context in
   let* _ := addAssistantMessage env threadId answer in
   ret answer) w = (Throw CompletionFailure, next_tick w).
Proof.
  intros Hst Hinv. unfold bind at 1.
  rewrite (buildContext_run this w threadId st Hst).
  unfold bind at 1. unfold invoke. now rewrite Hinv.
Qed.

(** * Further properties of the manager *)

(** X1: a fresh [MemoryStorage] is consistent, and every operation of the
    manager leaves a consistent store consistent, whether it returns or
    throws: each entry keeps referring to a live thread object whose [id] is
    the key of the entry. *)
Theorem operations_keep_consistent :
  consistent emptyWorld
  /\ forall (env : Env) (this : ConversationManager) (w : World),
       consistent w ->
       (forall arg, consistent (snd (initThread env arg w)))
       /\ (forall threadId text,
             consistent (snd (addUserMessage env threadId text w))
             /\ consistent (snd (addAssistantMessage env threadId text w))
             /\ consistent (snd (generate env this threadId text w)))
       /\ (forall threadId,
             consistent (snd (maybeCompress env this threadId w))
             /\ consistent (snd (buildContext this threadId w))
             /\ consistent (snd (getThreadView threadId w))).
Proof.
  split; [exact consistent_emptyWorld|].
  intros env this w Hc. split; [|split].
  - intros arg. now apply preserves_initThread.
  - intros threadId text. split; [|split].
    + now apply preserves_addMessage.
    + now apply preserves_addMessage.
    + revert w Hc. unfold generate.
      apply preserves_bind; [apply preserves_addMessage|intros _].
      apply preserves_bind; [apply preserves_maybeCompress|intros _].
      apply preserves_bind; [apply preserves_buildContext|intros context].
      apply preserves_bind; [apply preserves_invoke|intros answer].
      apply preserves_bind; [apply preserves_addMessage|intros _].
      intros w Hc. exact Hc.
  - intros threadId. split; [|split].
    + now apply preserves_maybeCompress.
    + now apply preserves_buildContext.
    + revert w Hc. apply preserves_unchanged. intros w.
      unfold getThreadView, bind.
      destruct (store w !! threadId) as [r|] eqn:Hs.
      * rewrite (requireThread_found w threadId r Hs). unfold deref.
        destruct (heap w !! r); now split.
      * now rewrite (requireThread_missing w threadId Hs).
Qed.

Lemma operations_keep_consistent_witness :
  consistent (world_of eightMessages [])
  /\ consistent
       (snd (generate env_down eagerManager (lit "T") (lit "hello")
               (world_of eightMessages []))).
Proof.
  pose proof (consistent_world_of eightMessages []) as H.
  split; [exact H|].
  exact (proj2 (proj2 (proj1 (proj2
           (proj2 operations_keep_consistent env_down eagerManager
              (world_of eightMessages []) H))
           (lit "T") (lit "hello")))).
Defined.



Lemma slice_nil {A} (start : Z) (end_ : option Z) :
  slice (@nil A) start end_ = [].
Proof. unfold slice. now rewrite drop_nil, take_nil. Qed.

Lemma selectMessages_nil (this : ConversationManager) (st : ThreadState) :
  messages st = [] -> selectMessages this st = [].
Proof.
  intros H. unfold selectMessages. rewrite H, !slice_nil. reflexivity.
Qed.

(** X3: a turn without compaction.  On a consistent store, when the thread
    with the new user message stays below the compaction threshold and the
    model answers [text], [generate] returns [text] and has appended exactly
    the user message and the answer, in this order, to the messages of the
    thread; the summary and the other threads are as before. *)
Theorem generate_appends_turn (env : Env) (this : ConversationManager)
    (w : World) (threadId input text : jsstring) (st : ThreadState) :
  consistent w -> thread w threadId = Some st ->
  totalTokens (appended env (tick w) user input st) < compressAfterTokens this ->
  env_invoke env (S (S (S (tick w))))
    (assembleContext this (appended env (tick w) user input st)) = Some text ->
  exists w' st',
    generate env this threadId input w = (Ok text, w')
    /\ thread w' threadId = Some st'
    /\ messages st'
       = messages st ++ [newMessage env (tick w) user input;
                         newMessage env (S (S (S (S (tick w))))) assistant text]
    /\ summary st' = summary st
    /\ same_elsewhere threadId w w'.
Proof.
  intros Hc Hst Hlt Hinv.
  destruct (addMessage_spec env user w threadId input st Hc Hst)
    as (w1 & Hrun1 & Hc1 & Htick1 & Hst1 & Hframe1).
  fold (appended env (tick w) user input st) in Hst1.
  rewrite <- Htick1 in Hinv.
  destruct (generate_tail_answers env this w1 threadId text _ Hc1 Hst1 Hinv)
    as (w2 & Hrun2 & _ & Hst2 & Hframe2).
  exists w2, (appended env (S (tick w1)) assistant text
                (appended env (tick w) user input st)).
  split; [|split; [exact Hst2|split; [|split]]].
  - unfold generate, addUserMessage. unfold bind at 1. rewrite Hrun1.
    unfold bind at 1.
    rewrite (maybeCompress_skip_spec env this w1 threadId _ Hst1 Hlt).
    exact Hrun2.
  - rewrite Htick1. cbn. now rewrite <- app_assoc.
  - reflexivity.
  - exact (same_elsewhere_trans threadId w w1 w2 Hframe1 Hframe2).
Qed.

Lemma generate_appends_turn_witness :
  exists w' st',
    generate env_ok defaultManager (lit "T") (lit "what next") 
      (world_of twoMessages []) = (Ok (lit " - summary "), w')
    /\ thread w' (lit "T") = Some st'
    /\ messages st'
       = twoMessages ++ [newMessage env_ok 0 user (lit "what next");
                         newMessage env_ok 4 assistant (lit " - summary ")]
    /\ summary st' = []
    /\ same_elsewhere (lit "T") (world_of twoMessages []) w'.
Proof.
  apply (generate_appends_turn env_ok defaultManager (world_of twoMessages [])
           (lit "T") (lit "what next") (lit " - summary ")
           {| thread_id := lit "T"; messages := twoMessages;
              summary := []; lastUpdated := 0 |}).
  - apply consistent_world_of.
  - reflexivity.
  - vm_compute. reflexivity.
  - reflexivity.
Defined.

(** X4: no rollback.  Under the same conditions, when the model throws on
    the assembled context, [generate] throws the failure of the model and
    the thread keeps the user message that was appended: it ends with a user
    message that has no answer. *)
Theorem generate_failure_keeps_input (env : Env)
    (this : ConversationManager) (w : World) (threadId input : jsstring)
    (st : ThreadState) :
  consistent w -> thread w threadId = Some st ->
  totalTokens (appended env (tick w) user input st) < compressAfterTokens this ->
  env_invoke env (S (S (S (tick w))))
    (assembleContext this (appended env (tick w) user input st)) = None ->
  exists w' st',
    generate env this threadId input w = (Throw CompletionFailure, w')
    /\ thread w' threadId = Some st'
    /\ messages st' = messages st ++ [newMessage env (tick w) user input]
    /\ same_elsewhere threadId w w'.
Proof.
  intros Hc Hst Hlt Hinv.
  destruct (addMessage_spec env user w threadId input st Hc Hst)
    as (w1 & Hrun1 & Hc1 & Htick1 & Hst1 & Hframe1).
  fold (appended env (tick w) user input st) in Hst1.
  rewrite <- Htick1 in Hinv.
  exists (next_tick w1), (appended env (tick w) user input st).
  split; [|split; [exact Hst1|split; [reflexivity|exact Hframe1]]].
  unfold generate, addUserMessage. unfold bind at 1. rewrite Hrun1.
  unfold bind at 1.
  rewrite (maybeCompress_skip_spec env this w1 threadId _ Hst1 Hlt).
  exact (generate_tail_throws env this w1 threadId _ Hst1 Hinv).
Qed.

Lemma generate_failure_keeps_input_witness :
  exists w' st',
    generate env_down defaultManager (lit "T") (lit "what next")
      (world_of twoMessages []) = (Throw CompletionFailure, w')
    /\ thread w' (lit "T") = Some st'
    /\ messages st'
       = twoMessages ++ [newMessage env_down 0 user (lit "what next")]
    /\ same_elsewhere (lit "T") (world_of twoMessages []) w'.
Proof.
  apply (generate_failure_keeps_input env_down defaultManager
           (world_of twoMessages []) (lit "T") (lit "what next")
           {| thread_id := lit "T"; messages := twoMessages;
              summary := []; lastUpdated := 0 |}).
  - apply consistent_world_of.
  - reflexivity.
  - vm_compute. reflexivity.
  - reflexivity.
Defined.

(** X5: a turn whose compaction swallows the input.  When the thread holds
    fewer than six messages and, with the new user message, reaches the
    compaction threshold, the chunk of [max(6, ...)] messages is the whole
    thread, the new user message included.  If the model answers the
    summarization with [res], the context assembled for the turn is the
    header alone, carrying the new summary, and after the answer [text] the
    thread holds the assistant message only. *)
Theorem generate_compaction_swallows_input (env : Env)
    (this : ConversationManager) (w : World)
    (threadId input res text : jsstring) (st : ThreadState) :
  consistent w -> thread w threadId = Some st ->
  (length (messages st) < 6)%nat ->
  compressAfterTokens this
    <= totalTokens (appended env (tick w) user input st) ->
  env_invoke env (S (S (S (tick w))))
    (compressionPrompt (summary st)
       (messages st ++ [newMessage env (tick w) user input])) = Some res ->
  env_invoke env (S (S (S (S (S (tick w))))))
    [SystemMessage
       (headerText this
          {| thread_id := thread_id st; messages := []; summary := trim res;
             lastUpdated := env_now env (S (S (S (S (tick w))))) |})]
    = Some text ->
  exists w2 w' st',
    (let* _ := addUserMessage env threadId input in
     let* _ := maybeCompress env this threadId in
     buildContext this threadId) w
    = (Ok [SystemMessage
             (headerText this
                {| thread_id := thread_id st; messages := [];
                   summary := trim res;
                   lastUpdated := env_now env (S (S (S (S (tick w))))) |})],
       w2)
    /\ generate env this threadId input w = (Ok text, w')
    /\ thread w' threadId = Some st'
    /\ messages st'
       = [newMessage env (S (S (S (S (S (S (tick w))))))) assistant text]
    /\ summary st' = trim res.
Proof.
  intros Hc Hst Hlen Hge Hsum Hans.
  destruct (addMessage_spec env user w threadId input st Hc Hst)
    as (w1 & Hrun1 & Hc1 & Htick1 & Hst1 & _).
  fold (appended env (tick w) user input st) in Hst1.
  set (st1 := appended env (tick w) user input st) in *.
  assert (Hn : (length (messages st1) <= Z.to_nat (chunkSize st1))%nat).
  { unfold chunkSize. subst st1. cbn [messages appended with_lastUpdated
      with_messages]. rewrite length_app. cbn [length]. lia. }
  assert (Htake : take (Z.to_nat (chunkSize st1)) (messages st1)
                  = messages st ++ [newMessage env (tick w) user input])
    by (now rewrite take_ge).
  assert (Hdrop : drop (Z.to_nat (chunkSize st1)) (messages st1) = [])
    by (now apply drop_ge).
  rewrite <- Htick1 in Hsum.
  change (summary st) with (summary st1) in Hsum. rewrite <- Htake in Hsum.
  destruct (maybeCompress_answers_spec env this w1 threadId st1 res
              Hc1 Hst1 Hge Hsum) as (w2 & Hrun2 & Hc2 & Htick2 & Hst2 & _).
  rewrite Hdrop, Htick1 in Hst2.
  change (thread_id st1) with (thread_id st) in Hst2.
  set (st2 := {| thread_id := thread_id st; messages := [];
                 summary := trim res;
                 lastUpdated := env_now env (S (S (S (S (tick w))))) |}) in *.
  assert (Hctx : assembleContext this st2 = [SystemMessage (headerText this st2)]).
  { unfold assembleContext. now rewrite selectMessages_nil. }
  rewrite <- Hctx in Hans.
  replace (S (S (S (S (S (tick w)))))) with (tick w2) in Hans
    by (rewrite Htick2, Htick1; reflexivity).
  destruct (generate_tail_answers env this w2 threadId text st2 Hc2 Hst2 Hans)
    as (w3 & Hrun3 & _ & Hst3 & _).
  exists w2, w3, (appended env (S (tick w2)) assistant text st2).
  split; [|split; [|split; [exact Hst3|split]]].
  - unfold addUserMessage. unfold bind at 1. rewrite Hrun1.
    unfold bind at 1. rewrite Hrun2.
    now rewrite (buildContext_run this w2 threadId st2 Hst2), Hctx.
  - unfold generate, addUserMessage. unfold bind at 1. rewrite Hrun1.
    unfold bind at 1. rewrite Hrun2. exact Hrun3.
  - rewrite Htick2, Htick1. reflexivity.
  - reflexivity.
Qed.

Lemma generate_compaction_swallows_input_witness :
  exists w2 w' st',
    (let* _ := addUserMessage env_ok (lit "T")
                 (lit "please summarise everything we have said so far about the retrieval plan and its evaluation") in
     let* _ := maybeCompress env_ok eagerManager (lit "T") in
     buildContext eagerManager (lit "T")) (world_of twoMessages [])
    = (Ok [SystemMessage
             (headerText eagerManager
                {| thread_id := lit "T"; messages := [];
                   summary := lit "- summary"; lastUpdated := 4 |})],
       w2)
    /\ generate env_ok eagerManager (lit "T")
         (lit "please summarise everything we have said so far about the retrieval plan and its evaluation")
         (world_of twoMessages []) = (Ok (lit " - summary "), w')
    /\ thread w' (lit "T") = Some st'
    /\ messages st' = [newMessage env_ok 6 assistant (lit " - summary ")]
    /\ summary st' = lit "- summary".
Proof.
  apply (generate_compaction_swallows_input env_ok eagerManager
           (world_of twoMessages []) (lit "T")
           (lit "please summarise everything we have said so far about the retrieval plan and its evaluation")
           (lit " - summary ") (lit " - summary ")
           {| thread_id := lit "T"; messages := twoMessages;
              summary := []; lastUpdated := 0 |}).
  - apply consistent_world_of.
  - reflexivity.
  - cbn. lia.
  - vm_compute. discriminate.
  - reflexivity.
  - reflexivity.
Defined.

(** ** Thread creation and appending *)

(** X6: [initThread] never throws, and the id it returns denotes a thread of
    the store afterwards.  Called with an id the store does not hold, it
    returns that id and creates the empty thread under it (no messages,
    empty summary); called without an id, it takes the id from [uuid()].
    The threads under other ids are as before. *)
Theorem initThread_creates (env : Env) (w : World)
    (arg : option jsstring) :
  consistent w ->
  exists id w' st,
    initThread env arg w = (Ok id, w')
    /\ id = default (env_uuid env (tick w)) arg
    /\ thread w' id = Some st
    /\ thread_id st = id
    /\ (thread w id = None -> messages st = [] /\ summary st = [])
    /\ same_elsewhere id w w'.
Proof.
  intros Hc.
  assert (Hsome : forall X w0, consistent w0 ->
    exists w' st,
      initThread env (Some X) w0 = (Ok X, w')
      /\ thread w' X = Some st /\ thread_id st = X
      /\ (thread w0 X = None -> messages st = [] /\ summary st = [])
      /\ same_elsewhere X w0 w').
  { intros X w0 Hc0. destruct (store w0 !! X) as [r|] eqn:Hs.
    - destruct (consistent_thread w0 X r Hc0 Hs) as (st & _ & Hid & Hst).
      exists w0, st. split; [|split; [exact Hst|split; [exact Hid|split]]].
      + unfold initThread, bind, ret, getThread. now rewrite Hs.
      + congruence.
      + intros other _. reflexivity.
    - destruct (initThread_fresh_spec env w0 X Hc0 Hs)
        as (w' & Hrun & _ & Hst & Hframe).
      eexists w', _. split; [exact Hrun|]. split; [exact Hst|].
      split; [reflexivity|]. split; [now split | exact Hframe]. }
  destruct arg as [X|]; cbn [default].
  - destruct (Hsome X w Hc) as (w' & st & H). exists X, w', st.
    destruct H as (H1 & H2 & H3 & H4 & H5). repeat split; try assumption;
      now apply H4.
  - destruct (Hsome (env_uuid env (tick w)) (next_tick w) Hc)
      as (w' & st & H1 & H2 & H3 & H4 & H5).
    exists (env_uuid env (tick w)), w', st.
    split; [|repeat split; try assumption; now apply H4].
    unfold initThread in *. unfold bind at 1. unfold uuid.
    unfold bind at 1 in H1. exact H1.
Qed.

Lemma initThread_creates_witness :
  exists id w' st,
    initThread env_ok None (world_of twoMessages []) = (Ok id, w')
    /\ id = lit "id" ++ [0%N]
    /\ thread w' id = Some st
    /\ thread_id st = id
    /\ (thread (world_of twoMessages []) id = None ->
        messages st = [] /\ summary st = [])
    /\ same_elsewhere id (world_of twoMessages []) w'.
Proof.
  exact (initThread_creates env_ok (world_of twoMessages []) None
           (consistent_world_of twoMessages [])).
Defined.

(** X7: on a consistent store, [addUserMessage] and [addAssistantMessage]
    on an existing thread return normally and push exactly one record at the
    end of its messages, with the role of the method, the given content, the
    id from [uuid()] and the time from [Date.now()]; the id and the summary
    of the thread, its earlier messages and the other threads are as
    before. *)
Theorem addMessage_appends (env : Env) (w : World)
    (threadId text : jsstring) (st : ThreadState) :
  consistent w -> thread w threadId = Some st ->
  (exists w' st',
     addUserMessage env threadId text w = (Ok tt, w')
     /\ thread w' threadId = Some st'
     /\ messages st' = messages st ++ [newMessage env (tick w) user text]
     /\ summary st' = summary st /\ thread_id st' = thread_id st
     /\ same_elsewhere threadId w w')
  /\ (exists w' st',
        addAssistantMessage env threadId text w = (Ok tt, w')
        /\ thread w' threadId = Some st'
        /\ messages st'
           = messages st ++ [newMessage env (tick w) assistant text]
        /\ summary st' = summary st /\ thread_id st' = thread_id st
        /\ same_elsewhere threadId w w').
Proof.
  intros Hc Hst.
  assert (H : forall role, exists w' st',
    addMessage env role threadId text w = (Ok tt, w')
    /\ thread w' threadId = Some st'
    /\ messages st' = messages st ++ [newMessage env (tick w) role text]
    /\ summary st' = summary st /\ thread_id st' = thread_id st
    /\ same_elsewhere threadId w w').
  { intros role.
    destruct (addMessage_spec env role w threadId text st Hc Hst)
      as (w' & Hrun & _ & _ & Hst' & Hframe).
    eexists w', _. split; [exact Hrun|]. split; [exact Hst'|].
    repeat split. exact Hframe. }
  split; apply H.
Qed.

Lemma addMessage_appends_witness :
  exists w' st',
    addUserMessage env_ok (lit "T") (lit "what next") (world_of twoMessages [])
      = (Ok tt, w')
    /\ thread w' (lit "T") = Some st'
    /\ messages st'
       = twoMessages ++ [newMessage env_ok 0 user (lit "what next")]
    /\ summary st' = [] /\ thread_id st' = lit "T"
    /\ same_elsewhere (lit "T") (world_of twoMessages []) w'.
Proof.
  exact (proj1 (addMessage_appends env_ok (world_of twoMessages []) (lit "T")
                  (lit "what next")
                  {| thread_id := lit "T"; messages := twoMessages;
                     summary := []; lastUpdated := 0 |}
                  (consistent_world_of twoMessages []) eq_refl)).
Defined.

(** ** More on the context assembler *)

Lemma recordsCost_nonneg (l : list MessageRecord) : 0 <= recordsCost l.
Proof.
  induction l as [|m l IH]; simpl; [lia|].
  pose proof (Z.le_max_l 1 (round_1_3 (wordCount (content m)))) as H.
  fold (estimateTokens (content m)) in H. lia.
Qed.

Lemma recordsCost_reverse (l : list MessageRecord) :
  recordsCost (reverse l) = recordsCost l.
Proof.
  induction l as [|m l IH]; [reflexivity|].
  rewrite reverse_cons, recordsCost_app, IH. simpl. lia.
Qed.

(** With a window of [k >= 1] messages, the two slices of [buildContext]
    split the messages at [length - k]. *)
Lemma window_split {A} (msgs : list A) (k : Z) :
  0 < k ->
  slice msgs (- k) None = drop (length msgs - Z.to_nat k) msgs
  /\ slice msgs 0 (Some (Z.max 0 (Z.of_nat (length msgs) - k)))
     = take (length msgs - Z.to_nat k) msgs.
Proof.
  intros Hk. unfold slice, slice_index.
  set (len := Z.of_nat (length msgs)).
  replace (- k <? 0) with true by (symmetry; apply Z.ltb_lt; lia).
  replace (0 <? 0) with false by reflexivity.
  replace (Z.max 0 (len - k) <? 0) with false
    by (symmetry; apply Z.ltb_ge; lia).
  replace (Z.to_nat (Z.max (len + - k) 0))
    with (length msgs - Z.to_nat k)%nat by (subst len; lia).
  split.
  - apply take_ge. rewrite length_drop. subst len. lia.
  - replace (Z.to_nat (Z.min 0 len)) with O by (subst len; lia).
    rewrite drop_0. f_equal. subst len. lia.
Qed.

(** A loop whose budget exceeds the cost of its whole list selects all of
    it. *)
Lemma admission_push_all (ms : list MessageRecord) (b : Z)
    (sel : list MessageRecord) :
  recordsCost ms < b ->
  admission push ms b sel = (b - recordsCost ms, sel ++ ms).
Proof.
  revert b sel. induction ms as [|m ms IH]; intros b sel Hlt; simpl in *.
  - now rewrite Z.sub_0_r, app_nil_r.
  - pose proof (recordsCost_nonneg ms) as Hpos.
    destruct (Z.leb_spec (b - (estimateTokens (content m) + 5)) 0); [lia|].
    rewrite IH by lia. unfold push. rewrite <- app_assoc. f_equal. lia.
Qed.

Lemma admission_unshift_all (ms : list MessageRecord) (b : Z)
    (sel : list MessageRecord) :
  recordsCost ms < b ->
  admission unshift ms b sel = (b - recordsCost ms, reverse ms ++ sel).
Proof.
  revert b sel. induction ms as [|m ms IH]; intros b sel Hlt; simpl in *.
  - now rewrite Z.sub_0_r.
  - pose proof (recordsCost_nonneg ms) as Hpos.
    destruct (Z.leb_spec (b - (estimateTokens (content m) + 5)) 0); [lia|].
    rewrite IH by lia. unfold unshift.
    rewrite reverse_cons, <- app_assoc. f_equal. lia.
Qed.

(** X8: with a window of at least one message and a budget above the
    estimate of the header plus the cost of every message, [buildContext]
    returns the header followed by the whole history, in order. *)
Theorem buildContext_complete (this : ConversationManager) (w : World)
    (threadId : jsstring) (st : ThreadState) :
  thread w threadId = Some st ->
  0 < keepRecent this ->
  estimateTokens (headerText this st) + recordsCost (messages st)
    < maxPromptTokens this ->
  buildContext this threadId w
  = (Ok (SystemMessage (headerText this st)
           :: (toBaseMessage <$> messages st)), w).
Proof.
  intros Hst Hk Hfit. rewrite (buildContext_run this w threadId st Hst).
  unfold assembleContext, selectMessages.
  destruct (window_split (messages st) (keepRecent this) Hk) as [-> ->].
  set (n := (length (messages st) - Z.to_nat (keepRecent this))%nat).
  pose proof (recordsCost_app (take n (messages st)) (drop n (messages st)))
    as Hsplit.
  rewrite take_drop in Hsplit.
  pose proof (recordsCost_nonneg (take n (messages st))).
  pose proof (recordsCost_nonneg (drop n (messages st))).
  rewrite admission_push_all by lia.
  rewrite admission_unshift_all by (rewrite recordsCost_reverse; lia).
  cbn [snd]. rewrite reverse_involutive. cbn [app].
  now rewrite take_drop.
Qed.

Lemma buildContext_complete_witness :
  buildContext defaultManager (lit "T") (world_of eightMessages [])
  = (Ok (SystemMessage
           (headerText defaultManager
              {| thread_id := lit "T"; messages := eightMessages;
                 summary := []; lastUpdated := 0 |})
           :: (toBaseMessage <$> eightMessages)),
     world_of eightMessages []).
Proof.
  apply (buildContext_complete defaultManager (world_of eightMessages [])
           (lit "T")
           {| thread_id := lit "T"; messages := eightMessages;
              summary := []; lastUpdated := 0 |}).
  - reflexivity.
  - reflexivity.
  - vm_compute. reflexivity.
Defined.

(** X9: under every configuration, a context that holds more than the
    header costs strictly less than [maxPromptTokens]: the loops stop before
    the budget reaches zero. *)
Theorem buildContext_strictly_below (this : ConversationManager) (w : World)
    (threadId : jsstring) (st : ThreadState) :
  thread w threadId = Some st ->
  exists ctx,
    buildContext this threadId w = (Ok ctx, w)
    /\ ((1 < length ctx)%nat -> contextCost ctx < maxPromptTokens this).
Proof.
  intros Hst. exists (assembleContext this st).
  split; [now apply buildContext_run|].
  rewrite contextCost_assemble. unfold assembleContext.
  cbn [length]. rewrite length_fmap.
  destruct (selectMessages_account this st) as [-> | Hlt];
    [cbn; lia | intros _; exact Hlt].
Qed.

Lemma buildContext_strictly_below_witness :
  exists ctx,
    buildContext smallManager (lit "T") (world_of eightMessages [])
      = (Ok ctx, world_of eightMessages [])
    /\ ((1 < length ctx)%nat -> contextCost ctx < maxPromptTokens smallManager).
Proof.
  exact (buildContext_strictly_below smallManager (world_of eightMessages [])
           (lit "T")
           {| thread_id := lit "T"; messages := eightMessages;
              summary := []; lastUpdated := 0 |} eq_refl).
Defined.

(** The first loop stops inside a window that does not fit as a whole. *)
Lemma admission_push_stops (ms : list MessageRecord) (b : Z) :
  ms <> [] -> b <= recordsCost ms ->
  exists p q,
    ms = p ++ q /\ q <> [] /\ snd (admission push ms b []) = p.
Proof.
  intros Hne Hcost.
  destruct (admission_push_prefix ms b []) as (p & q & E & Hsel).
  destruct (admission_account push push_cost ms b []) as [Hsum Hpos].
  exists p, q. split; [exact E|]. split; [|exact Hsel].
  intros ->. rewrite app_nil_r in E. subst p.
  rewrite Hsel in Hsum. cbn [app recordsCost foldr] in Hsum.
  destruct Hpos as [Heq | Hpos].
  - rewrite Heq in Hsel. cbn in Hsel. congruence.
  - fold (recordsCost ms) in Hsum. lia.
Qed.

(** X10: recency is not guaranteed.  With a window of at least one message,
    if the most recent [keepRecent] messages together cost at least the
    budget left after the header, the selection stops before the end of the
    thread: at least the newest message is missing from the context, whatever
    older messages are in it. *)
Theorem buildContext_drops_newest (this : ConversationManager) (w : World)
    (threadId : jsstring) (st : ThreadState) :
  thread w threadId = Some st ->
  0 < keepRecent this ->
  messages st <> [] ->
  maxPromptTokens this - estimateTokens (headerText this st)
    <= recordsCost (drop (length (messages st) - Z.to_nat (keepRecent this))
                      (messages st)) ->
  exists sel before after,
    buildContext this threadId w
      = (Ok (SystemMessage (headerText this st) :: (toBaseMessage <$> sel)), w)
    /\ messages st = before ++ sel ++ after
    /\ after <> [].
Proof.
  intros Hst Hk Hne Hcost.
  exists (selectMessages this st).
  rewrite (buildContext_run this w threadId st Hst).
  unfold assembleContext, selectMessages.
  destruct (window_split (messages st) (keepRecent this) Hk) as [-> ->].
  set (n := (length (messages st) - Z.to_nat (keepRecent this))%nat) in *.
  set (b0 := maxPromptTokens this - estimateTokens (headerText this st)) in *.
  assert (Hrecent : drop n (messages st) <> []).
  { intros E. apply (f_equal length) in E. rewrite length_drop in E.
    destruct (messages st); [congruence|]. cbn [length] in *. lia. }
  destruct (admission_push_stops (drop n (messages st)) b0 Hrecent Hcost)
    as (p1 & q1 & E1 & Hq1 & S1).
  destruct (admission push (drop n (messages st)) b0 []) as [b1 sel1].
  cbn [snd] in S1. subst sel1.
  destruct (admission_unshift_prefix (reverse (take n (messages st))) b1 p1)
    as (p2 & q2 & E2 & S2).
  rewrite S2. exists (reverse q2), q1.
  split; [reflexivity|]. split; [|exact Hq1].
  rewrite <- (take_drop n (messages st)) at 1. rewrite E1.
  apply (f_equal reverse) in E2.
  rewrite reverse_involutive, reverse_app in E2. rewrite E2.
  now rewrite <- !app_assoc.
Qed.

Lemma buildContext_drops_newest_witness :
  exists sel before after,
    buildContext smallManager (lit "T") (world_of eightMessages [])
      = (Ok (SystemMessage
               (headerText smallManager
                  {| thread_id := lit "T"; messages := eightMessages;
                     summary := []; lastUpdated := 0 |})
               :: (toBaseMessage <$> sel)),
         world_of eightMessages [])
    /\ eightMessages = before ++ sel ++ after
    /\ after <> [].
Proof.
  apply (buildContext_drops_newest smallManager (world_of eightMessages [])
           (lit "T")
           {| thread_id := lit "T"; messages := eightMessages;
              summary := []; lastUpdated := 0 |}).
  - reflexivity.
  - reflexivity.
  - discriminate.
  - vm_compute. discriminate.
Defined.

(** X11: with a window of at least one message, the records behind the
    non-header part of the context are a contiguous stretch of the messages
    of the thread, in their order; when the messages of the thread have
    distinct ids, so have they. *)
Theorem buildContext_chronological (this : ConversationManager) (w : World)
    (threadId : jsstring) (st : ThreadState) :
  thread w threadId = Some st ->
  0 < keepRecent this ->
  exists sel before after,
    buildContext this threadId w
      = (Ok (SystemMessage (headerText this st) :: (toBaseMessage <$> sel)), w)
    /\ messages st = before ++ sel ++ after
    /\ sel `sublist_of` messages st
    /\ (NoDup (msg_id <$> messages st) -> NoDup (msg_id <$> sel)).
Proof.
  intros Hst Hk.
  destruct (selectMessages_contiguous this st Hk) as (before & after & E).
  destruct (selectMessages_chronological this st Hk) as [Hsub Hnd].
  exists (selectMessages this st), before, after.
  split; [now apply buildContext_run|].
  repeat split; assumption.
Qed.

Lemma buildContext_chronological_witness :
  exists sel before after,
    buildContext smallManager (lit "T") (world_of eightMessages [])
      = (Ok (SystemMessage
               (headerText smallManager
                  {| thread_id := lit "T"; messages := eightMessages;
                     summary := []; lastUpdated := 0 |})
               :: (toBaseMessage <$> sel)),
         world_of eightMessages [])
    /\ eightMessages = before ++ sel ++ after
    /\ sel `sublist_of` eightMessages
    /\ (NoDup (msg_id <$> eightMessages) -> NoDup (msg_id <$> sel)).
Proof.
  exact (buildContext_chronological smallManager (world_of eightMessages [])
           (lit "T")
           {| thread_id := lit "T"; messages := eightMessages;
              summary := []; lastUpdated := 0 |} eq_refl eq_refl).
Defined.

(** X12: [buildContext] and [getThreadView] only read: whatever they return
    or throw, in whatever world, the world after the call is the world
    before it; and on an existing thread [getThreadView] returns its summary
    and its messages. *)
Theorem reads_leave_world (this : ConversationManager) (w : World)
    (threadId : jsstring) :
  snd (buildContext this threadId w) = w
  /\ snd (getThreadView threadId w) = w
  /\ forall st, thread w threadId = Some st ->
       getThreadView threadId w = (Ok (summary st, messages st), w).
Proof.
  split; [|split].
  - unfold buildContext, bind.
    destruct (store w !! threadId) as [r|] eqn:Hs.
    + rewrite (requireThread_found w threadId r Hs). unfold deref.
      now destruct (heap w !! r).
    + now rewrite (requireThread_missing w threadId Hs).
  - unfold getThreadView, bind.
    destruct (store w !! threadId) as [r|] eqn:Hs.
    + rewrite (requireThread_found w threadId r Hs). unfold deref.
      now destruct (heap w !! r).
    + now rewrite (requireThread_missing w threadId Hs).
  - intros st (r & Hs & Hh)%thread_lookup. unfold getThreadView, bind.
    rewrite (requireThread_found w threadId r Hs).
    now rewrite (deref_run w r st Hh).
Qed.

Lemma reads_leave_world_witness :
  thread (world_of twoMessages (lit "so far")) (lit "T")
    = Some {| thread_id := lit "T"; messages := twoMessages;
              summary := lit "so far"; lastUpdated := 0 |}
  /\ getThreadView (lit "T") (world_of twoMessages (lit "so far"))
     = (Ok (lit "so far", twoMessages), world_of twoMessages (lit "so far")).
Proof.
  split; [reflexivity|].
  exact (proj2 (proj2 (reads_leave_world defaultManager
                         (world_of twoMessages (lit "so far")) (lit "T")))
           {| thread_id := lit "T"; messages := twoMessages;
              summary := lit "so far"; lastUpdated := 0 |} eq_refl).
Defined.

(** X13: with [keepRecent = 0] the window and the messages before it are
    both the whole thread.  When the budget exceeds the estimate of the
    header plus twice the cost of every message, [buildContext] returns the
    header followed by the whole history twice. *)
Theorem buildContext_no_window_doubles (this : ConversationManager)
    (w : World) (threadId : jsstring) (st : ThreadState) :
  thread w threadId = Some st ->
  keepRecent this = 0 ->
  estimateTokens (headerText this st) + 2 * recordsCost (messages st)
    < maxPromptTokens this ->
  buildContext this threadId w
  = (Ok (SystemMessage (headerText this st)
           :: (toBaseMessage <$> messages st ++ messages st)), w).
Proof.
  intros Hst Hk Hfit. rewrite (buildContext_run this w threadId st Hst).
  unfold assembleContext, selectMessages. rewrite Hk.
  assert (Hrecent : slice (messages st) (- 0) None = messages st).
  { unfold slice, slice_index. change (- 0 <? 0) with false. cbv iota.
    change (- 0) with 0.
    replace (Z.to_nat (Z.min 0 (Z.of_nat (length (messages st))))) with O by lia.
    rewrite drop_0. apply take_ge. lia. }
  assert (Holder : slice (messages st) 0
                     (Some (Z.max 0 (Z.of_nat (length (messages st)) - 0)))
                   = messages st).
  { unfold slice, slice_index. change (0 <? 0) with false. cbv iota.
    replace (Z.max 0 (Z.of_nat (length (messages st)) - 0) <? 0) with false
      by (symmetry; apply Z.ltb_ge; lia).
    replace (Z.to_nat (Z.min 0 (Z.of_nat (length (messages st))))) with O by lia.
    rewrite drop_0. apply take_ge. lia. }
  rewrite Hrecent, Holder.
  pose proof (recordsCost_nonneg (messages st)).
  rewrite admission_push_all by lia.
  rewrite admission_unshift_all by (rewrite recordsCost_reverse; lia).
  cbn [snd app]. now rewrite reverse_involutive.
Qed.

Lemma buildContext_no_window_doubles_witness :
  buildContext noWindowManager (lit "T") (world_of eightMessages [])
  = (Ok (SystemMessage
           (headerText noWindowManager
              {| thread_id := lit "T"; messages := eightMessages;
                 summary := []; lastUpdated := 0 |})
           :: (toBaseMessage <$> eightMessages ++ eightMessages)),
     world_of eightMessages []).
Proof.
  apply (buildContext_no_window_doubles noWindowManager
           (world_of eightMessages []) (lit "T")
           {| thread_id := lit "T"; messages := eightMessages;
              summary := []; lastUpdated := 0 |}).
  - reflexivity.
  - reflexivity.
  - vm_compute. reflexivity.
Defined.

(** ** More on the estimator and on compaction *)

(** X14: the estimate of a text depends on its number of words only: it is
    [1.3] times that number, rounded, and the estimate of one word for a
    text without any word (empty, or white space only). *)
Theorem estimateTokens_counts_words (text : jsstring) :
  estimateTokens text = round_1_3 (Z.of_nat (Nat.max 1 (runs text))).
Proof.
  rewrite <- wordCount_runs. unfold estimateTokens.
  pose proof (wordCount_pos text) as Hw.
  pose proof (round_1_3_mono 1 (wordCount text) Hw) as Hr.
  change (round_1_3 1) with 1 in Hr. lia.
Qed.

Lemma runs_from_app_ws (b : bool) (x : jsstring) (c : N) (z : jsstring) :
  is_ws c = true ->
  runs_from b (x ++ c :: z) = (runs_from b x + runs_from false z)%nat.
Proof.
  intros Hc. revert b. induction x as [|d x IH]; intros b; simpl.
  - now rewrite Hc.
  - destruct (is_ws d); rewrite IH; lia.
Qed.

Lemma runs_join (l : list jsstring) :
  runs (join (lit " " ++ nl) l) = sum_list_with runs l.
Proof.
  unfold runs. induction l as [|x [|y l] IH].
  - reflexivity.
  - simpl. lia.
  - change (join (lit " " ++ nl) (x :: y :: l))
      with (x ++ 32%N :: 10%N :: join (lit " " ++ nl) (y :: l)).
    rewrite runs_from_app_ws by reflexivity.
    change (runs_from false (10%N :: join (lit " " ++ nl) (y :: l)))
      with (runs_from false (join (lit " " ++ nl) (y :: l))).
    rewrite IH. reflexivity.
Qed.

(** X15: the quantity that triggers compaction is the estimate of the words
    of all messages taken together: [1.3] times the total number of words,
    rounded (and the estimate of one word for a thread without words).
    Hence removing the oldest messages never raises it, and pushing a
    message never lowers it. *)
Theorem totalTokens_counts_words (st : ThreadState) :
  totalTokens st
  = round_1_3
      (Z.of_nat (Nat.max 1 (sum_list_with (fun m => runs (content m))
                              (messages st))))
  /\ (forall n,
        totalTokens (with_messages (drop n (messages st)) st) <= totalTokens st)
  /\ (forall m,
        totalTokens st <= totalTokens (with_messages (messages st ++ [m]) st)).
Proof.
  assert (H : forall ms : list MessageRecord,
    estimateTokens (join (lit " " ++ nl) (content <$> ms))
    = round_1_3 (Z.of_nat (Nat.max 1 (sum_list_with
                                         (fun m => runs (content m)) ms)))).
  { intros ms. rewrite estimateTokens_round, wordCount_runs, runs_join.
    do 3 f_equal. induction ms as [|m ms IH]; [reflexivity|].
    rewrite fmap_cons. cbn [sum_list_with]. now rewrite IH. }
  unfold totalTokens. cbn [messages with_messages].
  split; [apply H|]. split.
  - intros n. rewrite !H. apply round_1_3_mono.
    rewrite <- (take_drop n (messages st)) at 2.
    rewrite sum_list_with_app. lia.
  - intros m. rewrite !H. apply round_1_3_mono.
    rewrite sum_list_with_app. lia.
Qed.

(** X16: the effect of [maybeCompress] on a consistent store.  Below the
    threshold it returns without any change and without a call to the model.
    At the threshold, when the model answers the prompt built from the old
    summary and the oldest [max(6, floor(length / 4))] messages with [res],
    it returns with those messages removed, the summary replaced by [res]
    trimmed, the time updated, and the other threads as before. *)
Theorem maybeCompress_effect (env : Env) (this : ConversationManager)
    (w : World) (threadId : jsstring) (st : ThreadState) :
  consistent w -> thread w threadId = Some st ->
  (totalTokens st < compressAfterTokens this ->
   maybeCompress env this threadId w = (Ok tt, w))
  /\ (forall res,
        compressAfterTokens this <= totalTokens st ->
        env_invoke env (tick w)
          (compressionPrompt (summary st)
             (take (Z.to_nat (Z.max 6 (Z.of_nat (length (messages st)) / 4)))
                (messages st))) = Some res ->
        exists w',
          maybeCompress env this threadId w = (Ok tt, w')
          /\ thread w' threadId
             = Some {| thread_id := thread_id st;
                       messages :=
                         drop (Z.to_nat
                                 (Z.max 6 (Z.of_nat (length (messages st)) / 4)))
                           (messages st);
                       summary := trim res;
                       lastUpdated := env_now env (S (tick w)) |}
          /\ same_elsewhere threadId w w').
Proof.
  intros Hc Hst. split.
  - now apply maybeCompress_skip_spec.
  - intros res Hge Hinv.
    destruct (maybeCompress_answers_spec env this w threadId st res
                Hc Hst Hge Hinv) as (w' & Hrun & _ & _ & Hst' & Hframe).
    exists w'. repeat split; assumption.
Qed.

Lemma maybeCompress_effect_witness :
  exists w',
    maybeCompress env_ok eagerManager (lit "T")
      (world_of eightMessages (lit "old summary")) = (Ok tt, w')
    /\ thread w' (lit "T")
       = Some {| thread_id := lit "T"; messages := lastTwo;
                 summary := lit "- summary"; lastUpdated := 1 |}
    /\ same_elsewhere (lit "T") (world_of eightMessages (lit "old summary")) w'.
Proof.
  apply (proj2 (maybeCompress_effect env_ok eagerManager
                  (world_of eightMessages (lit "old summary")) (lit "T")
                  {| thread_id := lit "T"; messages := eightMessages;
                     summary := lit "old summary"; lastUpdated := 0 |}
                  (consistent_world_of eightMessages (lit "old summary"))
                  eq_refl) (lit " - summary ")).
  - vm_compute. discriminate.
  - reflexivity.
Defined.

(** ** MemoryStorage *)

(** X17: [saveThread(state)] followed by [getThread(state.id)] yields the
    saved object; the entries under other ids and the objects themselves are
    not touched. *)
Theorem saveThread_getThread (w : World) (r : ref) (st : ThreadState) :
  heap w !! r = Some st ->
  exists w',
    saveThread r w = (Ok tt, w')
    /\ getThread (thread_id st) w' = (Ok (Some r), w')
    /\ (forall other, other <> thread_id st ->
          getThread other w' = (Ok (store w !! other), w'))
    /\ heap w' = heap w.
Proof.
  intros Hh. eexists. split; [exact (saveThread_run w r st Hh)|].
  unfold getThread, set_store. cbn [store heap].
  split; [now rewrite lookup_insert_eq|].
  split; [|reflexivity].
  intros other Hne. now rewrite lookup_insert_ne by congruence.
Qed.

Lemma saveThread_getThread_witness :
  exists w',
    saveThread 0%nat (world_of twoMessages []) = (Ok tt, w')
    /\ getThread (lit "T") w' = (Ok (Some 0%nat), w')
    /\ (forall other, other <> lit "T" ->
          getThread other w'
          = (Ok (store (world_of twoMessages []) !! other), w'))
    /\ heap w' = heap (world_of twoMessages []).
Proof.
  exact (saveThread_getThread (world_of twoMessages []) 0%nat
           {| thread_id := lit "T"; messages := twoMessages;
              summary := []; lastUpdated := 0 |} eq_refl).
Defined.

(** ** Tool selection *)

Lemma startsWith_spec (s sub : jsstring) :
  startsWith s sub = true <-> exists rest, s = sub ++ rest.
Proof.
  revert s. induction sub as [|c sub IH]; intros s; simpl.
  - split; [intros _; now exists s | reflexivity].
  - destruct s as [|d s]; simpl.
    + split; [discriminate | intros (rest & E); discriminate].
    + rewrite andb_true_iff, N.eqb_eq, IH. split.
      * intros (-> & rest & ->). now exists rest.
      * intros (rest & E). injection E as -> ->. split; [reflexivity|].
        now exists rest.
Qed.

(** [includes] is the test for a substring. *)
Lemma includes_spec (s sub : jsstring) :
  includes s sub = true <-> exists before after, s = before ++ sub ++ after.
Proof.
  induction s as [|d s IH]; simpl.
  - rewrite orb_false_r, startsWith_spec. split.
    + intros (rest & E). now exists [], rest.
    + intros (before & after & E). symmetry in E.
      apply app_eq_nil in E as [-> E]. exists after. now rewrite E.
  - rewrite orb_true_iff, startsWith_spec, IH. split.
    + intros [(rest & E) | (before & after & E)].
      * now exists [], rest.
      * exists (d :: before), after. now rewrite E.
    + intros (before & after & E). destruct before as [|d' before].
      * left. now exists after.
      * right. injection E as -> E. now exists before, after.
Qed.

(** X18: [selectToolsForQuery] returns [undefined] exactly when the
    lower-cased query contains none of the six keywords as a substring, and
    never an empty array.  Otherwise it returns between one and three tools
    out of calculator, web search and email sender, in this order and
    without repetition, a tool being present exactly when one of its two
    keywords occurs. *)
Theorem selectToolsForQuery_shape (toLowerCase : jsstring -> jsstring)
    (query : jsstring) :
  let occurs kw :=
    exists before after, toLowerCase query = before ++ lit kw ++ after in
  match selectToolsForQuery toLowerCase query with
  | None =>
      ~ occurs "calculate" /\ ~ occurs "math" /\ ~ occurs "search"
      /\ ~ occurs "web" /\ ~ occurs "email" /\ ~ occurs "send"
  | Some selected =>
      selected <> []
      /\ selected `sublist_of` [calculator; webSearch; emailSender]
      /\ (calculator ∈ selected <-> occurs "calculate" \/ occurs "math")
      /\ (webSearch ∈ selected <-> occurs "search" \/ occurs "web")
      /\ (emailSender ∈ selected <-> occurs "email" \/ occurs "send")
  end.
Proof.
  intros occurs.
  assert (Hocc : forall kw,
    includes (toLowerCase query) (lit kw) = true <-> occurs kw)
    by (intros kw; apply includes_spec).
  unfold selectToolsForQuery, push_if.
  destruct (includes (toLowerCase query) (lit "calculate")
            || includes (toLowerCase query) (lit "math")) eqn:E1;
  destruct (includes (toLowerCase query) (lit "search")
            || includes (toLowerCase query) (lit "web")) eqn:E2;
  destruct (includes (toLowerCase query) (lit "email")
            || includes (toLowerCase query) (lit "send")) eqn:E3;
  cbn [app length Nat.ltb Nat.leb];
  rewrite <- !Hocc, <- ?orb_true_iff, ?E1, ?E2, ?E3.
  all: try (apply orb_false_iff in E1 as [E1a E1b];
            apply orb_false_iff in E2 as [E2a E2b];
            apply orb_false_iff in E3 as [E3a E3b];
            rewrite E1a, E1b, E2a, E2b, E3a, E3b;
            repeat split; discriminate).
  all: split; [discriminate|].
  all: split; [repeat (first [apply sublist_nil | apply sublist_skip
                             | apply sublist_cons])|].
  all: repeat split; intros H; try reflexivity; try discriminate.
  all: try (repeat (apply elem_of_cons in H as [H|H]; [discriminate|]);
            now apply elem_of_nil in H).
  all: solve [repeat constructor].
Qed.

Example selectToolsForQuery_example :
  selectToolsForQuery asciiLower (lit "Please CALCULATE 2+2 and Send it")
    = Some [calculator; emailSender]
  /\ selectToolsForQuery asciiLower (lit "hello there") = None.
Proof. split; reflexivity. Qed.

(** * Interleaved calls *)

(** ** A call that runs alone is the sequential method *)

Lemma bind_ext {A B} (m : M A) (k1 k2 : A -> M B) (w : World) :
  (forall a w', k1 a w' = k2 a w') -> bind m k1 w = bind m k2 w.
Proof.
  intros H. unfold bind. destruct (m w) as [[a|e] w']; [apply H | reflexivity].
Qed.

Lemma bind_assoc {A B C} (m : M A) (f : A -> M B) (g : B -> M C) (w : World) :
  bind (bind m f) g w = bind m (fun a => bind (f a) g) w.
Proof. unfold bind. now destruct (m w) as [[a|e] w']. Qed.

Lemma complete_suspend {A} (p : Async A) (w : World) :
  complete (suspend p) w = completeA p w.
Proof. unfold suspend, completeA. cbn. now destruct (p w). Qed.

Lemma complete_awaiting {A} (t : Task A) (w : World) :
  complete (awaiting t) w = complete t w.
Proof.
  revert w. induction t as [res|next IH effect]; intros w; [reflexivity|].
  cbn. apply IH.
Qed.

Lemma completeA_andThen {A B} (t : Task A) (k : A -> Async B) (w : World) :
  completeA (andThen t k) w = bind (complete t) (fun a => completeA (k a)) w.
Proof.
  revert w. induction t as [[a|e]|next IH effect]; intros w;
    [reflexivity | reflexivity |].
  unfold completeA at 1. cbn [andThen]. rewrite complete_suspend.
  change (completeA (andThen (next w) k) (effect w)
          = bind (complete (Suspended next effect))
              (fun a => completeA (k a)) w).
  rewrite IH. reflexivity.
Qed.

Lemma completeA_bindA {A B} (p : Async A) (k : A -> Async B) (w : World) :
  completeA (bindA p k) w = bind (completeA p) (fun a => completeA (k a)) w.
Proof.
  unfold completeA at 1, bindA. destruct (p w) as [t w'] eqn:E.
  fold (completeA (andThen t k) w'). rewrite completeA_andThen.
  unfold bind, completeA at 2. now rewrite E.
Qed.

Lemma completeA_await {A} (p : Async A) (w : World) :
  completeA (await p) w = completeA p w.
Proof.
  unfold completeA, await. destruct (p w) as [t w']. apply complete_awaiting.
Qed.

Lemma completeA_sync {A} (m : M A) (w : World) : completeA (sync m) w = m w.
Proof. unfold completeA, sync. now destruct (m w). Qed.

Lemma completeA_bind_await {A B} (p : Async A) (k : A -> Async B)
    (m : M A) (w : World) :
  (forall w', completeA p w' = m w') ->
  completeA (bindA (await p) k) w = bind m (fun a => completeA (k a)) w.
Proof.
  intros H. rewrite completeA_bindA. unfold bind.
  now rewrite completeA_await, H.
Qed.

Lemma completeA_bind_sync {A B} (m : M A) (k : A -> Async B) (w : World) :
  completeA (bindA (sync m) k) w = bind m (fun a => completeA (k a)) w.
Proof. rewrite completeA_bindA. unfold bind. now rewrite completeA_sync. Qed.

Lemma completeA_await_sync {A} (m : M A) (w : World) :
  completeA (await (sync m)) w = m w.
Proof. now rewrite completeA_await, completeA_sync. Qed.

Lemma requireThreadA_alone (threadId : jsstring) (w : World) :
  completeA (requireThreadA threadId) w = requireThread threadId w.
Proof.
  unfold requireThreadA, requireThread, getThreadA.
  rewrite (completeA_bind_await _ _ (getThread threadId))
    by (intros; apply completeA_sync).
  apply bind_ext. intros [r|] w'; apply completeA_sync.
Qed.

Lemma invokeA_alone (env : Env) (prompt : list BaseMessage) (w : World) :
  completeA (invokeA env prompt) w = invoke env prompt w.
Proof.
  unfold completeA, invokeA. rewrite complete_suspend. apply completeA_sync.
Qed.

Lemma addMessageA_alone (env : Env) (role : Role)
    (threadId text : jsstring) (w : World) :
  completeA (addMessageA env role threadId text) w
  = addMessage env role threadId text w.
Proof.
  unfold addMessageA, addMessage, saveThreadA.
  rewrite (completeA_bind_await _ _ (requireThread threadId))
    by apply requireThreadA_alone.
  apply bind_ext. intros state w1.
  rewrite completeA_bind_sync.
  rewrite !bind_assoc. apply bind_ext. intros id w2.
  rewrite !bind_assoc. apply bind_ext. intros now w3.
  rewrite !bind_assoc. apply bind_ext. intros [] w4.
  rewrite !bind_assoc. apply bind_ext. intros now' w5.
  apply bind_ext. intros [] w6.
  apply completeA_await_sync.
Qed.

Lemma buildContextA_alone (this : ConversationManager)
    (threadId : jsstring) (w : World) :
  completeA (buildContextA this threadId) w = buildContext this threadId w.
Proof.
  unfold buildContextA, buildContext.
  rewrite (completeA_bind_await _ _ (requireThread threadId))
    by apply requireThreadA_alone.
  apply bind_ext. intros state w1. apply completeA_sync.
Qed.

Lemma maybeCompressA_alone (env : Env) (this : ConversationManager)
    (threadId : jsstring) (w : World) :
  completeA (maybeCompressA env this threadId) w
  = maybeCompress env this threadId w.
Proof.
  unfold maybeCompressA, maybeCompress, saveThreadA.
  rewrite (completeA_bind_await _ _ (requireThread threadId))
    by apply requireThreadA_alone.
  apply bind_ext. intros state w1.
  rewrite completeA_bind_sync. apply bind_ext. intros st w2.
  destruct (totalTokens st <? compressAfterTokens this);
    [apply completeA_sync|].
  rewrite completeA_bind_sync.
  rewrite !bind_assoc. apply bind_ext. intros chunk w3.
  rewrite !bind_assoc. apply bind_ext. intros st' w4.
  unfold bind at 1. unfold ret at 1.
  rewrite (completeA_bind_await _ _ (invoke env _))
    by apply invokeA_alone.
  apply bind_ext. intros res w5.
  rewrite completeA_bind_sync.
  rewrite !bind_assoc. apply bind_ext. intros [] w6.
  rewrite !bind_assoc. apply bind_ext. intros now w7.
  apply bind_ext. intros [] w8.
  apply completeA_await_sync.
Qed.

(** A call to [generate] that no other call interleaves with is the
    sequential [generate]. *)
Lemma generateA_alone (env : Env) (this : ConversationManager)
    (threadId input : jsstring) (w : World) :
  complete (suspend (generateA env this threadId input)) w
  = generate env this threadId input w.
Proof.
  rewrite complete_suspend. unfold generateA, generate.
  rewrite (completeA_bind_await _ _ (addUserMessage env threadId input))
    by apply addMessageA_alone.
  apply bind_ext. intros [] w1.
  rewrite (completeA_bind_await _ _ (maybeCompress env this threadId))
    by apply maybeCompressA_alone.
  apply bind_ext. intros [] w2.
  rewrite (completeA_bind_await _ _ (buildContext this threadId))
    by apply buildContextA_alone.
  apply bind_ext. intros context w3.
  rewrite (completeA_bind_await _ _ (invoke env context))
    by apply invokeA_alone.
  apply bind_ext. intros text w4.
  rewrite (completeA_bind_await _ _ (addAssistantMessage env threadId text))
    by apply addMessageA_alone.
  apply bind_ext. intros [] w5.
  apply completeA_sync.
Qed.

(** ** Calls on one thread are not serialized *)


(** ** What an interleaved call does to its thread *)





Section TaskRules.

Variable env : Env.
Variable this : ConversationManager.
Variable threadId : jsstring.
Variable r : ref.
Hypothesis model_answers : forall t p, is_Some (env_invoke env t p).












End TaskRules.

Section TaskMethods.

Variable env : Env.
Variable this : ConversationManager.
Variable threadId : jsstring.
Variable r : ref.
Hypothesis model_answers : forall t p, is_Some (env_invoke env t p).








End TaskMethods.

(** ** Interleaved calls below the threshold lose nothing *)


Section Pool.

Variable env : Env.
Variable this : ConversationManager.
Variable threadId : jsstring.
Variable r : ref.
Variable st0 : ThreadState.
Hypothesis model_answers : forall t p, is_Some (env_invoke env t p).






End Pool.



